(** * The authenticated request pipeline of [src/api/client.ts]

    A shallow embedding of the [ApiClient] class: the token store
    ([loadTokens], [setTokens], [clearTokens]), the refresh coordinator
    ([refreshAccessToken]), the request executor ([request]) and the session
    facade ([login], [register], [logout]).

    JavaScript runs the client on one thread; an [async] method runs without
    interruption from one [await] to the next.  Each method is therefore cut at
    its [await]s into synchronous segments, and a [world] records which
    segment every call is waiting in.  The events of a [world] are the calls
    made by the pages and the settlements of the pending [fetch]es, in any
    order the environment chooses.  What a promise's settlement sets going
    (the rest of the refresh, then the tasks awaiting it) runs in microtasks
    before any other event, so it is part of the event that settles the
    [fetch].

    The platform is taken as follows.  [JSON.parse] and [JSON.stringify] are
    inverse on JSON values, and a text is known by what [JSON.parse] makes of
    it.  [localStorage] is available and never throws.  A response body is
    delivered whole: [response.text()] and [response.json()] fail only on a
    body that does not parse.  Numbers are integers.  A credential is any
    value, since the casts to [AuthTokens] check nothing; where one is put
    into a header or a URL, the value is recorded rather than its string. *)

From Stdlib Require Import Ascii String.
From stdpp Require Import base numbers option list strings gmap pretty.

Set Warnings "-register-all".

Local Open Scope string_scope.
Local Open Scope Z_scope.

(** ** Values *)

(** JSON values, as [JSON.parse] and [response.json()] return them.  Numbers
    are integers; the properties of an object are kept in order, each key
    once. *)
Inductive json : Type :=
| JNull
| JBool (b : bool)
| JNum (n : Z)
| JStr (s : string)
| JArr (items : list json)
| JObj (props : list (string * json)).

(** A JavaScript value as the client's fields hold it: [None] is [undefined],
    [Some JNull] is [null]. *)
Abbreviation value := (option json).

Definition null : value := Some JNull.
Definition undefined : value := None.

(** [!!v]: the falsy values are [undefined], [null], [false], [0] and [""]. *)
Definition truthy (v : value) : bool :=
  match v with
  | None => false
  | Some JNull => false
  | Some (JBool b) => b
  | Some (JNum n) => negb (n =? 0)
  | Some (JStr s) => negb (String.eqb s "")
  | Some (JArr _) => true
  | Some (JObj _) => true
  end.

(** What the code can throw: the two native errors of the platform, which
    carry no [status] property, and the object literals of [request]. *)
Inductive exn : Type :=
| TypeError
| SyntaxError
| Thrown (o : list (string * json)).

Inductive outcome (A : Type) : Type :=
| Returns (a : A)
| Throws (e : exn).
Arguments Returns {A} a.
Arguments Throws {A} e.

(** Own property lookup in an object literal. *)
Fixpoint assoc (k : string) (o : list (string * json)) : value :=
  match o with
  | [] => undefined
  | (k', v) :: o' => if String.eqb k k' then Some v else assoc k o'
  end.

(** [o[k] = v]: an existing key keeps its place, a new key goes last. *)
Fixpoint assign (k : string) (v : json) (o : list (string * json))
  : list (string * json) :=
  match o with
  | [] => [(k, v)]
  | (k', v') :: o' =>
      if String.eqb k k' then (k, v) :: o' else (k', v') :: assign k v o'
  end.

(** [v.k] for the keys the client reads ([accessToken], [refreshToken],
    [status]): reading a property of [null] throws, an object answers with its
    own property, any other value has no such property. *)
Definition prop (k : string) (v : json) : outcome value :=
  match v with
  | JNull => Throws TypeError
  | JObj o => Returns (assoc k o)
  | _ => Returns undefined
  end.

(** The own enumerable properties that [{...v}] copies: those of an object,
    the indices of an array or of a string, none for the other values. *)
Definition chars (s : string) : list json :=
  (fun c => JStr (String c "")) <$> list_ascii_of_string s.

Definition indexed (l : list json) : list (string * json) :=
  imap (fun i v => (pretty i, v)) l.

Definition spread (v : json) : list (string * json) :=
  match v with
  | JObj o => o
  | JArr l => indexed l
  | JStr s => indexed (chars s)
  | _ => []
  end.

(** A text, as [localStorage] keeps it and as a response body carries it,
    described by what [JSON.parse] makes of it: the empty text (the only falsy
    one), a text that is not JSON, or the serialisation of a JSON value.
    [JSON.stringify] and [JSON.parse] are the platform's; the serialisation of
    [v] is identified with [v]. *)
Inductive text : Type :=
| Empty
| Garbled
| Doc (v : json).

Definition nonempty (t : text) : bool :=
  match t with Empty => false | _ => true end.

Definition JSON_parse (t : text) : outcome json :=
  match t with
  | Doc v => Returns v
  | _ => Throws SyntaxError
  end.

Definition JSON_stringify (v : json) : text := Doc v.

(** ** The network *)

Inductive header : Type :=
| Literal (s : string)
| Bearer (token : value).          (* `Bearer ${token}` *)

(** [RequestInit], with the members the application uses. *)
Record RequestInit : Type := mkInit {
  method : option string;
  body : option text;
  headers : gmap string header;
}.

(** A settled [fetch]: rejected without a response, or a response with its
    status line and its body (delivered whole). *)
Inductive settled : Type :=
| Rejected
| Response (status : Z) (statusText : string) (payload : text).

(** [response.ok] *)
Definition ok (status : Z) : bool := (200 <=? status) && (status <=? 299).

(** The calls handed to [fetch]: one made by [request] on behalf of a pending
    call of [request] (numbered in the order the calls were made), or the one
    of [refreshAccessToken], with the refresh credential put in its query. *)
Inductive call : Type :=
| ApiCall (caller : nat) (url : string) (init : RequestInit)
| RefreshCall (promise : nat) (credential : value).

Definition BASE_URL : string := "http://localhost:8080".
Definition KEY : string := "safewalk_tokens".

(** ** The client *)

Record ApiClient : Type := mkClient {
  accessToken : value;
  refreshToken : value;
  isRefreshing : bool;
  refreshPromise : option nat;
}.

(** The arguments of one call of [request]. *)
Record args : Type := mkArgs {
  endpoint : string;
  options : RequestInit;
  requiresAuth : bool;
  retryOnUnauthorized : bool;
}.

(** What happens to the result of [request]: handed to the caller as it is, or
    (in [login] and [register]) passed through [setTokens] first. *)
Inductive after : Type :=
| HandBack
| StoreTokens.

(** A call of [request] (or of [login], [register]): waiting for its [fetch],
    waiting for the refresh promise, or finished. *)
Inductive task : Type :=
| Fetching (a : args) (k : after)
| Refreshing (a : args) (k : after) (promise : nat)
| Finished (r : outcome json).

Record world : Type := mkWorld {
  this : ApiClient;
  localStorage : gmap string text;
  sent : list call;                (* every call of fetch, oldest first *)
  tasks : list task;               (* every call of request, oldest first *)
  waiting : list nat;              (* the tasks awaiting the refresh promise, in order *)
  promises : nat;                  (* the promises made so far *)
}.

Definition with_this (c : ApiClient) (w : world) : world :=
  mkWorld c (localStorage w) (sent w) (tasks w) (waiting w) (promises w).
Definition with_storage (m : gmap string text) (w : world) : world :=
  mkWorld (this w) m (sent w) (tasks w) (waiting w) (promises w).
Definition with_sent (l : list call) (w : world) : world :=
  mkWorld (this w) (localStorage w) l (tasks w) (waiting w) (promises w).
Definition with_tasks (l : list task) (w : world) : world :=
  mkWorld (this w) (localStorage w) (sent w) l (waiting w) (promises w).
Definition with_waiting (l : list nat) (w : world) : world :=
  mkWorld (this w) (localStorage w) (sent w) (tasks w) l (promises w).
Definition with_promises (n : nat) (w : world) : world :=
  mkWorld (this w) (localStorage w) (sent w) (tasks w) (waiting w) n.

Definition with_tokens (a r : value) (c : ApiClient) : ApiClient :=
  mkClient a r (isRefreshing c) (refreshPromise c).
Definition with_refresh (b : bool) (p : option nat) (c : ApiClient) : ApiClient :=
  mkClient (accessToken c) (refreshToken c) b p.

(** *** Token store *)

Definition clearTokens (w : world) : world :=
  with_storage (delete KEY (localStorage w))
    (with_this (with_tokens null null (this w)) w).

(** [tokens.accessToken] is read first: on [null] nothing has been assigned
    when the [TypeError] is thrown. *)
Definition setTokens (tokens : json) (w : world) : outcome world :=
  match prop "accessToken" tokens with
  | Throws e => Throws e
  | Returns a =>
      match prop "refreshToken" tokens with
      | Throws e => Throws e
      | Returns r =>
          Returns (with_storage (<[KEY := JSON_stringify tokens]> (localStorage w))
                     (with_this (with_tokens a r (this w)) w))
      end
  end.

Definition loadTokens (w : world) : world :=
  match localStorage w !! KEY with
  | Some tokens =>
      if nonempty tokens then
        match JSON_parse tokens with
        | Throws _ => clearTokens w
        | Returns parsed =>
            match prop "accessToken" parsed with
            | Throws _ => clearTokens w
            | Returns a =>
                match prop "refreshToken" parsed with
                | Throws _ => clearTokens w
                | Returns r => with_this (with_tokens a r (this w)) w
                end
            end
        end
      else w
  | None => w
  end.

(** [new ApiClient()] over a given [localStorage]. *)
Definition fresh (storage : gmap string text) : world :=
  mkWorld (mkClient null null false None) storage [] [] [] 0.

Definition construct (storage : gmap string text) : world :=
  loadTokens (fresh storage).

Definition getAccessToken (w : world) : value := accessToken (this w).
Definition isAuthenticated (w : world) : bool := truthy (accessToken (this w)).

(** *** Refresh coordinator *)

(** What [refreshAccessToken] hands to its caller's [await]: [false] at once,
    or the promise of the refresh in flight. *)
Inductive awaited : Type :=
| Now (b : bool)
| Later (promise : nat).

(** The synchronous part of [refreshAccessToken], up to the [await fetch]. *)
Definition refreshAccessToken (w : world) : world * awaited :=
  if negb (truthy (refreshToken (this w))) then (w, Now false)
  else
    match isRefreshing (this w), refreshPromise (this w) with
    | true, Some p => (w, Later p)
    | _, _ =>
        let p := promises w in
        let w1 := with_this (with_refresh true (refreshPromise (this w)) (this w)) w in
        let w2 := with_sent (sent w1 ++ [RefreshCall p (refreshToken (this w1))]) w1 in
        let w3 := with_this (with_refresh true (Some p) (this w2)) w2 in
        (with_promises (S p) w3, Later p)
    end.

(** The [try]/[catch] of the refresh, once its [fetch] has settled. *)
Definition refresh_try (r : settled) (w : world) : world * bool :=
  match r with
  | Rejected => (clearTokens w, false)
  | Response status _ payload =>
      if negb (ok status) then (clearTokens w, false)
      else
        match JSON_parse payload with
        | Throws _ => (clearTokens w, false)
        | Returns tokens =>
            match setTokens tokens w with
            | Throws _ => (clearTokens w, false)
            | Returns w' => (w', true)
            end
        end
  end.

(** ... and its [finally]. *)
Definition refresh_finally (w : world) : world :=
  with_this (with_refresh false None (this w)) w.

(** *** Request executor *)

Definition build_headers (a : args) (w : world) : gmap string header :=
  let base := headers (options a) ∪ {["Content-Type" := Literal "application/json"]} in
  if requiresAuth a && truthy (accessToken (this w))
  then <["Authorization" := Bearer (accessToken (this w))]> base
  else base.

Definition url_of (a : args) : string :=
  if String.prefix "http" (endpoint a) then endpoint a else BASE_URL +:+ endpoint a.

(** The synchronous part of [request], up to the [await fetch], run for the
    task [i]. *)
Definition request (i : nat) (a : args) (w : world) : world :=
  with_sent
    (sent w ++ [ApiCall i (url_of a)
                  (mkInit (method (options a)) (body (options a)) (build_headers a w))])
    w.

Definition session_expired : exn :=
  Thrown [("status", JNum 401); ("message", JStr "Session expired. Please login again.")].

Definition network_error : exn :=
  Thrown [("status", JNum 0); ("message", JStr "Network error. Please check your connection.")].

(** [(error as ApiError).status] *)
Definition status_of (e : exn) : value :=
  match e with
  | Thrown o => assoc "status" o
  | _ => undefined
  end.

(** The outer [catch] of [request]. *)
Definition catch_all (e : exn) : exn :=
  if truthy (status_of e) then e else network_error.

(** The error thrown for a response that is not [ok]. *)
Definition error_of (status : Z) (statusText : string) (payload : text) : exn :=
  let errorData :=
    match JSON_parse payload with
    | Returns v => v
    | Throws _ => JObj [("status", JNum status); ("message", JStr statusText)]
    end in
  Thrown (assign "status" (JNum status) (spread errorData)).

(** The result read from the body of an [ok] response. *)
Definition result_of (payload : text) : outcome json :=
  if nonempty payload then JSON_parse payload else Returns (JObj []).

Definition set_task (i : nat) (t : task) (w : world) : world :=
  with_tasks (<[i := t]> (tasks w)) w.

(** The promise of [request] settles: the caller gets the outcome, after
    [setTokens] in [login] and [register]. *)
Definition finish (i : nat) (k : after) (r : outcome json) (w : world) : world :=
  match k, r with
  | StoreTokens, Returns tokens =>
      match setTokens tokens w with
      | Returns w' => set_task i (Finished (Returns tokens)) w'
      | Throws e => set_task i (Finished (Throws e)) w
      end
  | _, _ => set_task i (Finished r) w
  end.

Definition caught (r : outcome json) : outcome json :=
  match r with
  | Returns v => Returns v
  | Throws e => Throws (catch_all e)
  end.

Definition no_retry (a : args) : args :=
  mkArgs (endpoint a) (options a) (requiresAuth a) false.

(** [request] after [await this.refreshAccessToken()]. *)
Definition refreshed (i : nat) (a : args) (k : after) (b : bool) (w : world) : world :=
  if b then set_task i (Fetching (no_retry a) k) (request i (no_retry a) w)
  else finish i k (caught (Throws session_expired)) w.

(** [request] after [await fetch]. *)
Definition responded (i : nat) (a : args) (k : after) (r : settled) (w : world) : world :=
  match r with
  | Rejected => finish i k (caught (Throws TypeError)) w
  | Response status statusText payload =>
      if (status =? 401) && requiresAuth a && retryOnUnauthorized a then
        match refreshAccessToken w with
        | (w', Now b) => refreshed i a k b w'
        | (w', Later p) =>
            with_waiting (waiting w' ++ [i]) (set_task i (Refreshing a k p) w')
        end
      else if negb (ok status) then
        finish i k (caught (Throws (error_of status statusText payload))) w
      else
        finish i k (caught (result_of payload)) w
  end.

(** The refresh promise [p] settles with [b]: a task awaiting it goes on. *)
Definition wake (p : nat) (b : bool) (w : world) (i : nat) : world :=
  match tasks w !! i with
  | Some (Refreshing a k p') => if Nat.eqb p' p then refreshed i a k b w else w
  | _ => w
  end.

(** The [fetch] of the refresh in flight settles: the rest of the refresh
    runs, then the tasks awaiting its promise, in the order they came. *)
Definition refresh_settled (r : settled) (w : world) : world :=
  match isRefreshing (this w), refreshPromise (this w) with
  | true, Some p =>
      let (w1, b) := refresh_try r w in
      let w2 := refresh_finally w1 in
      foldl (wake p b) (with_waiting [] w2) (waiting w2)
  | _, _ => w
  end.

(** *** Session facade *)

Definition unreserved (c : ascii) : bool :=
  let n := nat_of_ascii c in
  ((65 <=? n) && (n <=? 90) || (97 <=? n) && (n <=? 122) || (48 <=? n) && (n <=? 57)
   || bool_decide (c ∈ list_ascii_of_string "-_.!~*'()"))%nat.

Definition hex (n : nat) : string :=
  String.substring n 1 "0123456789ABCDEF".

Fixpoint encodeURIComponent (s : string) : string :=
  match s with
  | EmptyString => ""
  | String c s' =>
      (if unreserved c then String c ""
       else "%" +:+ hex (nat_of_ascii c / 16) +:+ hex (nat_of_ascii c mod 16))%nat
      +:+ encodeURIComponent s'
  end.

Definition POST (payload : option text) : RequestInit :=
  mkInit (Some "POST") payload ∅.

Definition login_args (email password : string) : args :=
  mkArgs ("/api/v1/auth/login?email=" +:+ encodeURIComponent email
          +:+ "&password=" +:+ encodeURIComponent password)
         (POST None) false true.

Definition register_args (name email phoneNumber password : string) : args :=
  mkArgs "/api/v1/auth/register"
         (POST (Some (JSON_stringify
            (JObj [("name", JStr name); ("email", JStr email);
                   ("phoneNumber", JStr phoneNumber); ("password", JStr password)]))))
         false true.

Definition logout (w : world) : world := clearTokens w.

(** A new call of [request]: it becomes the youngest task and runs up to its
    [await fetch]. *)
Definition spawn (a : args) (k : after) (w : world) : world :=
  let i := length (tasks w) in
  request i a (with_tasks (tasks w ++ [Fetching a k]) w).

(** [login] and [register], up to the [await this.request(...)]; what follows
    it is the [StoreTokens] of [finish]. *)
Definition login (email password : string) (w : world) : world :=
  spawn (login_args email password) StoreTokens w.

Definition register (name email phoneNumber password : string) (w : world) : world :=
  spawn (register_args name email phoneNumber password) StoreTokens w.

(** ** Executions *)

Inductive event : Type :=
| CallRequest (a : args)
| CallLogin (email password : string)
| CallRegister (name email phoneNumber password : string)
| CallSetTokens (tokens : json)
| CallClearTokens
| CallLogout
| FetchSettles (i : nat) (r : settled)
| RefreshSettles (r : settled).

Definition step (w : world) (e : event) : world :=
  match e with
  | CallRequest a => spawn a HandBack w
  | CallLogin email password => login email password w
  | CallRegister name email phoneNumber password =>
      register name email phoneNumber password w
  | CallSetTokens tokens =>
      match setTokens tokens w with Returns w' => w' | Throws _ => w end
  | CallClearTokens => clearTokens w
  | CallLogout => logout w
  | FetchSettles i r =>
      match tasks w !! i with
      | Some (Fetching a k) => responded i a k r w
      | _ => w
      end
  | RefreshSettles r => refresh_settled r w
  end.

Definition run (w : world) (es : list event) : world := foldl step w es.

(** The calls of [fetch] made by the refresh coordinator, and those made for
    the task [i]. *)
Definition is_refresh (c : call) : bool :=
  match c with RefreshCall _ _ => true | _ => false end.
Definition is_for (i : nat) (c : call) : bool :=
  match c with ApiCall j _ _ => Nat.eqb i j | _ => false end.
Definition refresh_calls (w : world) : nat := length (filter is_refresh (sent w)).
Definition calls_for (i : nat) (w : world) : nat := length (filter (is_for i) (sent w)).

(** ** Vocabulary of the properties *)

(** Sample values: two credential pairs, a record with an access credential
    only, and an authenticated GET with the default flags. *)
Definition a1_r1 : json := JObj [("accessToken", JStr "a1"); ("refreshToken", JStr "r1")].
Definition a2_r2 : json := JObj [("accessToken", JStr "a2"); ("refreshToken", JStr "r2")].
Definition only_a1 : json := JObj [("accessToken", JStr "a1")].
Definition get (path : string) : args := mkArgs path (mkInit None None ∅) true true.

(** The condition of line 106: a 401 that [request] answers with a refresh. *)
Definition recovers (a : args) (r : settled) : bool :=
  match r with
  | Rejected => false
  | Response status _ _ => (status =? 401) && requiresAuth a && retryOnUnauthorized a
  end.

(** What the [try] block of [request] yields when no refresh is involved. *)
Definition unrecovered (r : settled) : outcome json :=
  match r with
  | Rejected => Throws TypeError
  | Response status statusText payload =>
      if ok status then result_of payload
      else Throws (error_of status statusText payload)
  end.

(** The responses after which [request] fails with the network error although
    a response was received. *)
Definition unreadable (r : settled) : Prop :=
  match r with
  | Rejected => True
  | Response status _ payload => status = 0 ∨ (ok status = true ∧ payload = Garbled)
  end.

(** [v.k], with [undefined] where the read would throw. *)
Definition field (k : string) (v : json) : value :=
  match prop k v with
  | Returns x => x
  | Throws _ => undefined
  end.

(** A value that carries both credentials or neither. *)
Definition paired (v : json) : Prop :=
  truthy (field "accessToken" v) = truthy (field "refreshToken" v).

Definition text_paired (t : text) : Prop :=
  match t with Doc v => paired v | _ => True end.

Definition settled_paired (r : settled) : Prop :=
  match r with Response _ _ payload => text_paired payload | Rejected => True end.

(** The task [i] is a call of [login] or [register] waiting for its [fetch]:
    its result goes through [setTokens]. *)
Definition stores (w : world) (i : nat) : bool :=
  match tasks w !! i with
  | Some (Fetching _ StoreTokens) => true
  | _ => false
  end.

(** The value that the event [e] brings to the credentials of the client in
    the state [w] is paired: the argument of [setTokens], the body of the
    response to a [login] or [register], the body of the response to the
    refresh.  The response to any other call brings nothing. *)
Definition event_paired (w : world) (e : event) : Prop :=
  match e with
  | CallSetTokens tokens => paired tokens
  | FetchSettles i r => if stores w i then settled_paired r else True
  | RefreshSettles r => settled_paired r
  | _ => True
  end.

(** ... for every event of an execution, each in the state it arrives in. *)
Fixpoint all_paired (w : world) (es : list event) : Prop :=
  match es with
  | [] => True
  | e :: es' => event_paired w e ∧ all_paired (step w e) es'
  end.

(** Both credentials are held or neither is. *)
Definition balanced (w : world) : Prop :=
  truthy (accessToken (this w)) = truthy (refreshToken (this w)).

(** The events that settle the refresh; the tasks that await it. *)
Definition settles_refresh (e : event) : bool :=
  match e with RefreshSettles _ => true | _ => false end.

Definition awaits_refresh (t : task) : bool :=
  match t with Refreshing _ _ _ => true | _ => false end.

(** The events that make the task [i] go on from the segment [t]. *)
Definition targets (i : nat) (t : task) (e : event) : Prop :=
  match t, e with
  | Fetching _ _, FetchSettles j _ => i = j
  | Refreshing _ _ _, RefreshSettles _ => True
  | _, _ => False
  end.

(** The state of an execution that began, with [c] refresh calls made, with
    no refresh in flight and nobody waiting, and in which no refresh has
    settled: still so, or one refresh call later with every waiting task on
    the promise of the refresh in flight. *)
Definition gathering (c : nat) (w : world) : Prop :=
  (isRefreshing (this w) = false ∧ refresh_calls w = c
   ∧ ∀ i t, tasks w !! i = Some t → awaits_refresh t = false)
  ∨ (∃ p, isRefreshing (this w) = true ∧ refreshPromise (this w) = Some p
          ∧ refresh_calls w = S c
          ∧ ∀ i a k q, tasks w !! i = Some (Refreshing a k q) → q = p ∧ i ∈ waiting w).

(** Every task has had [fetch] called for it once, or twice when it is on its
    second attempt (retry flag off) or finished. *)
Definition accounted (w : world) : Prop :=
  ∀ i,
    match tasks w !! i with
    | None => calls_for i w = 0%nat
    | Some (Fetching a _) =>
        calls_for i w = 1%nat ∨ (retryOnUnauthorized a = false ∧ calls_for i w = 2%nat)
    | Some (Refreshing _ _ _) => calls_for i w = 1%nat
    | Some (Finished _) => calls_for i w = 1%nat ∨ calls_for i w = 2%nat
    end.

(** ** The callers of the client *)

(** [usersApi.getMe] of [src/api/users.ts]: [request] with its default flags. *)
Definition getMe : args := mkArgs "/api/v1/users/me" (mkInit None None ∅) true true.

(** The calls of [fetch] made for the task [i], oldest first. *)
Definition sent_for (i : nat) (w : world) : list call := filter (is_for i) (sent w).

(** How often the character [c] occurs in [s]. *)
Fixpoint occurrences (c : ascii) (s : string) : nat :=
  match s with
  | EmptyString => 0%nat
  | String c' s' => ((if Ascii.eqb c c' then 1 else 0) + occurrences c s')%nat
  end.

(** *** [AuthProvider] of [src/contexts/AuthContext.tsx]

    The provider keeps two pieces of React state, [user] and [isLoading], next
    to the one [apiClient].  Its [async] functions are cut at their [await]
    like those of the client: the part before it, and the part that runs when
    the awaited promise settles. *)
Module AuthContext.

Record state : Type := mkState {
  api : world;
  user : value;
  isLoading : bool;
}.

(** [useState(null)], [useState(true)], over a new [ApiClient]. *)
Definition mount (storage : gmap string text) : state :=
  mkState (construct storage) null true.

(** [apiError.status === 401] *)
Definition is_401 (e : exn) : bool :=
  match status_of e with
  | Some (JNum 401) => true
  | _ => false
  end.

(** [refreshUser], up to [await usersApi.getMe()]. *)
Definition refreshUser (s : state) : state :=
  if negb (isAuthenticated (api s)) then mkState (api s) null false
  else mkState (spawn getMe HandBack (api s)) (user s) (isLoading s).

(** ... and from there on, [r] being the outcome of [getMe]. *)
Definition refreshUser_settled (r : outcome json) (s : state) : state :=
  match r with
  | Returns userData => mkState (api s) (Some userData) false
  | Throws e =>
      if is_401 e then mkState (clearTokens (api s)) null false
      else mkState (api s) (user s) false
  end.

(** [login] and [register], up to [await apiClient.login(...)]. *)
Definition login (email password : string) (s : state) : state :=
  mkState (login email password (api s)) (user s) (isLoading s).

Definition register (name email phoneNumber password : string) (s : state) : state :=
  mkState (register name email phoneNumber password (api s)) (user s) (isLoading s).

(** ... and from there on: [await refreshUser()] unless the client threw. *)
Definition login_settled (r : outcome json) (s : state) : state :=
  match r with
  | Returns _ => refreshUser s
  | Throws _ => s
  end.

Definition logout (s : state) : state :=
  mkState (logout (api s)) null (isLoading s).

(** [isAuthenticated: !!user] *)
Definition isAuthenticated (s : state) : bool := truthy (user s).

(** The event [e] reaches the client while [refreshUser] (or [login]) awaits
    the task [i]: if [e] settles the promise of the task, the rest of the
    function runs at once. *)
Definition on_event (rest : outcome json → state → state) (i : nat)
    (s : state) (e : event) : state :=
  let s' := mkState (step (api s) e) (user s) (isLoading s) in
  match tasks (api s') !! i with
  | Some (Finished r) => rest r s'
  | _ => s'
  end.

End AuthContext.

(** *** [parseApiDate] of [src/pages/trips/TripsPage.tsx] *)

Definition is_digit (c : ascii) : bool :=
  ((48 <=? nat_of_ascii c) && (nat_of_ascii c <=? 57))%nat.

Fixpoint all_digits (s : string) : bool :=
  match s with
  | EmptyString => true
  | String c s' => is_digit c && all_digits s'
  end.

(** [value.replace(/\.(\d{3})\d+$/, '.$1')]: the first dot that is followed, up
    to the end of the text, by four digits or more keeps its first three. *)
Fixpoint normalize (value : string) : string :=
  match value with
  | EmptyString => EmptyString
  | String c rest =>
      if Ascii.eqb c "." && all_digits rest && (4 <=? String.length rest)%nat
      then String c (String.substring 0 3 rest)
      else String c (normalize rest)
  end.

(** [parseApiDate]; [Date_parse] stands for [new Date(text)], with [None] for
    an invalid date, and a date is its time value. *)
Definition parseApiDate (Date_parse : string → option Z) (value : option string)
  : option Z :=
  match value with
  | None => None
  | Some v => if String.eqb v "" then None else Date_parse (normalize v)
  end.

(** *** The field errors of the forms

    ([src/pages/auth/LoginPage.tsx], lines 32 to 40, and the same loop in the
    other forms.)  The schemas are flat objects, so the path of an issue is a
    list of field names. *)
Record ZodIssue : Type := mkIssue {
  path : list string;
  message : string;
}.

Definition add_issue (errors : gmap string string) (err : ZodIssue) : gmap string string :=
  match path err with
  | field0 :: _ =>
      if negb (String.eqb field0 "") then <[field0 := message err]> errors else errors
  | [] => errors
  end.

(** [result.error.errors.forEach(...)] over [errors = {}]. *)
Definition fieldErrors (issues : list ZodIssue) : gmap string string :=
  foldl add_issue ∅ issues.

(** The issues reported for the field [k]. *)
Definition issues_of (k : string) (issues : list ZodIssue) : list ZodIssue :=
  filter (λ err, head (path err) = Some k) issues.

(** The events that neither store credentials nor settle a refresh: calls of
    [request], [clearTokens] and [logout], and the answers to calls. *)
Definition quiet (e : event) : bool :=
  match e with
  | CallRequest _ | CallClearTokens | CallLogout | FetchSettles _ _ => true
  | _ => false
  end.

(** A call of [login] or [register] that has not finished. *)
Definition pending_login (t : task) : bool :=
  match t with
  | Fetching _ StoreTokens | Refreshing _ StoreTokens _ => true
  | _ => false
  end.

(** Signed out: no credential held, no record stored, and no [login] or
    [register] under way that could store one. *)
Definition signed_out (w : world) : Prop :=
  accessToken (this w) = null ∧ refreshToken (this w) = null
  ∧ localStorage w !! KEY = None
  ∧ Forall (λ t, pending_login t = false) (tasks w).


(** * Properties *)

(** ** Objects *)

Lemma assoc_assign_eq (k : string) (v : json) (o : list (string * json)) :
  assoc k (assign k v o) = Some v.
Proof.
  induction o as [|[k' v'] o IH]; simpl.
  - by rewrite String.eqb_refl.
  - destruct (String.eqb k k') eqn:E; simpl; rewrite ?E, ?String.eqb_refl; auto.
Qed.

Lemma assoc_assign_ne (k k' : string) (v : json) (o : list (string * json)) :
  k ≠ k' → assoc k' (assign k v o) = assoc k' o.
Proof.
  intros Hne. induction o as [|[k0 v0] o IH]; simpl.
  - destruct (String.eqb k' k) eqn:E; [|done].
    apply String.eqb_eq in E. congruence.
  - destruct (String.eqb k k0) eqn:E; simpl.
    + apply String.eqb_eq in E. subst k0.
      destruct (String.eqb k' k) eqn:E'; [|done].
      apply String.eqb_eq in E'. congruence.
    + by rewrite IH.
Qed.

Lemma status_of_error_of (status : Z) (statusText : string) (payload : text) :
  status_of (error_of status statusText payload) = Some (JNum status).
Proof. unfold error_of, status_of. apply assoc_assign_eq. Qed.

Lemma ok_not_401 (status : Z) : ok status = true → (status =? 401) = false.
Proof. unfold ok. lia. Qed.

Lemma ok_not_0 (status : Z) : ok status = true → status ≠ 0.
Proof. unfold ok. lia. Qed.

(** ** Frames: what the segments leave alone *)

Lemma setTokens_frame (tokens : json) (w w' : world) :
  setTokens tokens w = Returns w' →
  sent w' = sent w ∧ tasks w' = tasks w ∧ waiting w' = waiting w
  ∧ promises w' = promises w
  ∧ isRefreshing (this w') = isRefreshing (this w)
  ∧ refreshPromise (this w') = refreshPromise (this w).
Proof.
  unfold setTokens.
  destruct (prop "accessToken" tokens); [|done].
  destruct (prop "refreshToken" tokens); [|done].
  intros [= <-]. done.
Qed.

Lemma setTokens_stores (tokens : json) (w w' : world) :
  setTokens tokens w = Returns w' →
  prop "accessToken" tokens = Returns (accessToken (this w'))
  ∧ prop "refreshToken" tokens = Returns (refreshToken (this w'))
  ∧ localStorage w' = <[KEY := Doc tokens]> (localStorage w).
Proof.
  unfold setTokens.
  destruct (prop "accessToken" tokens); [|done].
  destruct (prop "refreshToken" tokens); [|done].
  intros [= <-]. done.
Qed.

Lemma setTokens_throws (tokens : json) (w : world) (e : exn) :
  setTokens tokens w = Throws e → tokens = JNull.
Proof.
  unfold setTokens. destruct tokens; simpl; congruence.
Qed.

Lemma setTokens_returns (tokens : json) (w : world) :
  tokens ≠ JNull → ∃ w', setTokens tokens w = Returns w'.
Proof.
  intros H. destruct (setTokens tokens w) as [w'|e] eqn:E; [eauto|].
  by apply setTokens_throws in E.
Qed.

Lemma finish_throws (i : nat) (k : after) (e : exn) (w : world) :
  finish i k (Throws e) w = set_task i (Finished (Throws e)) w.
Proof. by destruct k. Qed.

Lemma finish_frame (i : nat) (k : after) (r : outcome json) (w : world) :
  sent (finish i k r w) = sent w
  ∧ waiting (finish i k r w) = waiting w
  ∧ promises (finish i k r w) = promises w
  ∧ isRefreshing (this (finish i k r w)) = isRefreshing (this w)
  ∧ refreshPromise (this (finish i k r w)) = refreshPromise (this w)
  ∧ length (tasks (finish i k r w)) = length (tasks w).
Proof.
  unfold finish. destruct k, r as [v|e]; simpl; rewrite ?length_insert; try done.
  destruct (setTokens v w) as [w'|e] eqn:E; simpl; rewrite ?length_insert; [|done].
  apply setTokens_frame in E as (-> & -> & -> & -> & -> & ->). done.
Qed.

Lemma finish_finished (i : nat) (k : after) (r : outcome json) (w : world) :
  (i < length (tasks w))%nat →
  ∃ r', tasks (finish i k r w) !! i = Some (Finished r').
Proof.
  intros Hi. unfold finish. destruct k, r as [v|e]; simpl;
    try (eexists; by apply list_lookup_insert_eq).
  destruct (setTokens v w) as [w'|e] eqn:E; simpl.
  - apply setTokens_frame in E as (_ & Ht & _). eexists.
    apply list_lookup_insert_eq. by rewrite Ht.
  - eexists; by apply list_lookup_insert_eq.
Qed.

Lemma finish_other (i j : nat) (k : after) (r : outcome json) (w : world) :
  i ≠ j → tasks (finish i k r w) !! j = tasks w !! j.
Proof.
  intros Hne. unfold finish. destruct k, r as [v|e]; simpl;
    try by apply list_lookup_insert_ne.
  destruct (setTokens v w) as [w'|e] eqn:E; simpl.
  - apply setTokens_frame in E as (_ & Ht & _).
    rewrite list_lookup_insert_ne by done. by rewrite Ht.
  - by apply list_lookup_insert_ne.
Qed.

Lemma refreshAccessToken_now (w w' : world) (b : bool) :
  refreshAccessToken w = (w', Now b) →
  b = false ∧ w' = w ∧ truthy (refreshToken (this w)) = false.
Proof.
  unfold refreshAccessToken.
  destruct (truthy (refreshToken (this w))); simpl.
  - destruct (isRefreshing (this w)), (refreshPromise (this w)); congruence.
  - intros [= <- <-]. done.
Qed.

Lemma refreshAccessToken_tokens (w : world) :
  accessToken (this (refreshAccessToken w).1) = accessToken (this w)
  ∧ refreshToken (this (refreshAccessToken w).1) = refreshToken (this w)
  ∧ localStorage (refreshAccessToken w).1 = localStorage w
  ∧ tasks (refreshAccessToken w).1 = tasks w
  ∧ waiting (refreshAccessToken w).1 = waiting w.
Proof.
  unfold refreshAccessToken.
  destruct (truthy (refreshToken (this w))); simpl; [|done].
  destruct (isRefreshing (this w)), (refreshPromise (this w)); done.
Qed.

(** A task woken by the refresh promise leaves the credentials alone. *)
Lemma refreshed_this (i : nat) (a : args) (k : after) (b : bool) (w : world) :
  this (refreshed i a k b w) = this w
  ∧ localStorage (refreshed i a k b w) = localStorage w.
Proof.
  destruct b; [done|]. unfold refreshed. simpl. by rewrite finish_throws.
Qed.

Lemma wake_this (p : nat) (b : bool) (w : world) (i : nat) :
  this (wake p b w i) = this w ∧ localStorage (wake p b w i) = localStorage w.
Proof.
  unfold wake. destruct (tasks w !! i) as [[a k|a k p'|r]|]; try done.
  destruct (Nat.eqb p' p); [apply refreshed_this|done].
Qed.

Lemma wakes_this (p : nat) (b : bool) (l : list nat) (w : world) :
  this (foldl (wake p b) w l) = this w
  ∧ localStorage (foldl (wake p b) w l) = localStorage w.
Proof.
  revert w. induction l as [|i l IH]; intros w; simpl; [done|].
  destruct (IH (wake p b w i)) as [-> ->]. apply wake_this.
Qed.

(** ** Token store *)

(** After [setTokens], a fresh client over the same storage holds the saved
    credentials again. *)
Lemma load_after_save (tokens : json) (w0 w1 : world) :
  setTokens tokens w0 = Returns w1 →
  accessToken (this (construct (localStorage w1))) = accessToken (this w1)
  ∧ refreshToken (this (construct (localStorage w1))) = refreshToken (this w1)
  ∧ localStorage (construct (localStorage w1)) = localStorage w1.
Proof.
  intros E. apply setTokens_stores in E as (Ha & Hr & Hs).
  unfold construct, loadTokens, fresh. simpl.
  rewrite Hs, lookup_insert_eq. simpl.
  rewrite Ha, Hr. simpl. by rewrite <- Hs.
Qed.

(** C9, as amended: [loadTokens] at construction.  Nothing stored, or the empty
    text: no credential, storage untouched.  A text that is not JSON, or the
    JSON value [null]: no credential, and the record is removed.  Any other
    JSON value is taken as it is, without validation: its [accessToken] and
    [refreshToken] properties become the credentials ([undefined] for a
    missing property) and the record stays.  In particular the value saved
    last by [setTokens] is loaded back unchanged. *)
Theorem loadTokens_cases (storage : gmap string text) (tokens : json) (w0 : world) :
  tokens ≠ JNull →
  (let w := construct storage in
   match storage !! KEY with
   | None | Some Empty =>
       accessToken (this w) = null ∧ refreshToken (this w) = null
       ∧ localStorage w = storage
   | Some Garbled | Some (Doc JNull) =>
       accessToken (this w) = null ∧ refreshToken (this w) = null
       ∧ localStorage w = delete KEY storage
   | Some (Doc v) =>
       prop "accessToken" v = Returns (accessToken (this w))
       ∧ prop "refreshToken" v = Returns (refreshToken (this w))
       ∧ localStorage w = storage
   end)
  ∧ ∃ w1, setTokens tokens w0 = Returns w1
      ∧ prop "accessToken" tokens = Returns (accessToken (this (construct (localStorage w1))))
      ∧ prop "refreshToken" tokens = Returns (refreshToken (this (construct (localStorage w1))))
      ∧ localStorage (construct (localStorage w1)) = localStorage w1.
Proof.
  intros Hnn. split.
  - unfold construct, loadTokens, fresh. simpl.
    destruct (storage !! KEY) as [[| |v]|] eqn:E; simpl; try done.
    destruct v; simpl; done.
  - destruct (setTokens_returns tokens w0 Hnn) as [w1 E]. exists w1.
    destruct (load_after_save _ _ _ E) as (Ha & Hr & Hs).
    destruct (setTokens_stores _ _ _ E) as (Ha' & Hr' & _).
    rewrite Ha, Hr. done.
Qed.

Lemma loadTokens_cases_witness :
  a1_r1 ≠ JNull
  ∧ accessToken (this (construct {[KEY := Doc a1_r1]})) = Some (JStr "a1")
  ∧ ∃ w1, setTokens a1_r1 (fresh ∅) = Returns w1
      ∧ refreshToken (this (construct (localStorage w1))) = Some (JStr "r1").
Proof.
  assert (Hnn : a1_r1 ≠ JNull) by discriminate.
  destruct (loadTokens_cases {[KEY := Doc a1_r1]} a1_r1 (fresh ∅) Hnn)
    as [H1 (w1 & E & Ha & Hr & Hs)].
  split; [exact Hnn|]. split.
  - rewrite lookup_singleton_eq in H1. destruct H1 as (Ha1 & _).
    simpl in Ha1. congruence.
  - exists w1. split; [exact E|]. simpl in Hr. congruence.
Defined.

(** C9, the claim as stated fails: a record that parses as JSON but is not a
    pair (here [{"accessToken":"a1"}]) is neither treated as absent nor
    cleared. *)
Lemma loadTokens_keeps_half_record :
  let w := construct {[KEY := Doc only_a1]} in
  getAccessToken w = Some (JStr "a1")
  ∧ refreshToken (this w) = undefined
  ∧ localStorage w !! KEY = Some (Doc only_a1).
Proof. vm_compute. done. Qed.

(** ** Refresh coordinator *)

Lemma refresh_try_cases (r : settled) (w : world) :
  match refresh_try r w with
  | (w1, true) =>
      ∃ status statusText tokens,
        r = Response status statusText (Doc tokens) ∧ ok status = true
        ∧ tokens ≠ JNull ∧ setTokens tokens w = Returns w1
  | (w1, false) =>
      w1 = clearTokens w
      ∧ ∀ status statusText tokens,
          r = Response status statusText (Doc tokens) → ok status = true → tokens = JNull
  end.
Proof.
  destruct r as [|status statusText payload]; simpl; [done|].
  destruct (ok status) eqn:Hok; simpl; [|split; [done|congruence]].
  destruct payload as [| |tokens]; simpl; try (split; [done|congruence]).
  destruct (setTokens tokens w) as [w1|e] eqn:E.
  - exists status, statusText, tokens. repeat split; try done.
    intros ->. discriminate.
  - split; [done|]. intros ??? [= <- <- <-] _. by apply setTokens_throws in E.
Qed.

Lemma refresh_settled_this (r : settled) (w : world) (p : nat) :
  isRefreshing (this w) = true → refreshPromise (this w) = Some p →
  this (refresh_settled r w) = with_refresh false None (this (refresh_try r w).1)
  ∧ localStorage (refresh_settled r w) = localStorage (refresh_try r w).1.
Proof.
  intros Hi Hp. unfold refresh_settled. rewrite Hi, Hp.
  destruct (refresh_try r w) as [w1 b]. simpl.
  destruct (wakes_this p b (waiting w1) (with_waiting [] (refresh_finally w1)))
    as [-> ->].
  done.
Qed.

(** C3, as amended: [refreshAccessToken] returns [true] exactly when the
    backend answered the refresh call with a 2xx response whose body parsed to
    a value other than [null]; that value was then stored, its [accessToken]
    and [refreshToken] properties as the credentials and its serialisation in
    [localStorage].  When the refresh call was made and the result is [false],
    both credentials are [null] and the stored record is removed.  Either way
    the in-flight marker is cleared.  When no refresh credential is held the
    result is [false] at once, with no network call and with nothing changed
    (an access credential held alone stays where it is). *)
Theorem refresh_contract (w0 w : world) (p : nat) (r : settled) :
  truthy (refreshToken (this w0)) = false →
  isRefreshing (this w) = true → refreshPromise (this w) = Some p →
  let b := (refresh_try r w).2 in
  let w' := step w (RefreshSettles r) in
  refreshAccessToken w0 = (w0, Now false)
  ∧ (b = true ↔
       ∃ status statusText tokens,
         r = Response status statusText (Doc tokens) ∧ ok status = true ∧ tokens ≠ JNull)
  ∧ (if b then
       ∃ status statusText tokens,
         r = Response status statusText (Doc tokens)
         ∧ prop "accessToken" tokens = Returns (accessToken (this w'))
         ∧ prop "refreshToken" tokens = Returns (refreshToken (this w'))
         ∧ localStorage w' = <[KEY := Doc tokens]> (localStorage w)
     else
       accessToken (this w') = null ∧ refreshToken (this w') = null
       ∧ localStorage w' = delete KEY (localStorage w))
  ∧ isRefreshing (this w') = false ∧ refreshPromise (this w') = None.
Proof.
  intros H0 Hi Hp b w'. split.
  { unfold refreshAccessToken. by rewrite H0. }
  destruct (refresh_settled_this r w p Hi Hp) as [Hthis Hsto].
  subst b w'. simpl step. pose proof (refresh_try_cases r w) as Hc.
  destruct (refresh_try r w) as [w1 b] eqn:E. simpl in *.
  rewrite Hthis, Hsto. simpl. destruct b.
  - destruct Hc as (status & statusText & tokens & -> & Hok & Hnn & Hset).
    split; [split; [eauto 6|done]|].
    split; [|done]. exists status, statusText, tokens.
    apply setTokens_stores in Hset as (Ha & Hr & Hs). done.
  - destruct Hc as [-> Hnone]. split; [|done].
    split; [done|]. intros (status & statusText & tokens & -> & Hok & Hnn).
    destruct Hnn. eauto.
Qed.

Lemma refresh_contract_witness :
  let w := (refreshAccessToken (construct {[KEY := Doc a1_r1]})).1 in
  let w' := step w (RefreshSettles (Response 400 "Bad Request" Empty)) in
  refreshAccessToken (fresh ∅) = (fresh ∅, Now false)
  ∧ accessToken (this w') = null ∧ refreshToken (this w') = null
  ∧ localStorage w' !! KEY = None.
Proof.
  intros w w'.
  pose proof (refresh_contract (fresh ∅) w 0%nat (Response 400 "Bad Request" Empty)
                eq_refl eq_refl eq_refl) as (H1 & _ & H3 & _).
  cbv zeta in H3.
  assert (Hb : (refresh_try (Response 400 "Bad Request" Empty) w).2 = false)
    by reflexivity.
  rewrite Hb in H3. destruct H3 as (Ha & Hr & Hs).
  split; [exact H1|]. split; [exact Ha|]. split; [exact Hr|].
  unfold w'. rewrite Hs. apply lookup_delete_eq.
Defined.

(** C3, the claim as stated fails: with an access credential held alone,
    [refreshAccessToken] returns [false] and clears nothing.  Here the client
    is built over the record [{"accessToken":"a1"}] and one request is
    answered 401. *)
Lemma refresh_false_clears_nothing :
  let w := construct {[KEY := Doc only_a1]} in
  let w' := run w [CallRequest (get "/api/v1/users/me");
                   FetchSettles 0 (Response 401 "Unauthorized" Empty)] in
  refreshAccessToken w = (w, Now false)
  ∧ tasks w' !! 0%nat = Some (Finished (Throws session_expired))
  ∧ refresh_calls w' = 0%nat
  ∧ accessToken (this w') = Some (JStr "a1")
  ∧ localStorage w' !! KEY = Some (Doc only_a1).
Proof. vm_compute. done. Qed.

(** ** Request executor *)

Lemma responded_unrecovered (i : nat) (a : args) (k : after) (r : settled) (w : world) :
  recovers a r = false →
  responded i a k r w = finish i k (caught (unrecovered r)) w.
Proof.
  destruct r as [|status statusText payload]; simpl; [done|].
  intros ->. by destruct (ok status).
Qed.

Lemma step_fetch (w : world) (i : nat) (a : args) (k : after) (r : settled) :
  tasks w !! i = Some (Fetching a k) →
  step w (FetchSettles i r) = responded i a k r w.
Proof. intros Ht. unfold step. by rewrite Ht. Qed.

Lemma task_in_range (w : world) (i : nat) (t : task) :
  tasks w !! i = Some t → (i < length (tasks w))%nat.
Proof. apply lookup_lt_Some. Qed.

Lemma finish_throws_task (i : nat) (k : after) (e : exn) (w : world) (t : task) :
  tasks w !! i = Some t →
  tasks (finish i k (Throws e) w) !! i = Some (Finished (Throws e)).
Proof.
  intros Ht. rewrite finish_throws. simpl.
  apply list_lookup_insert_eq. by eapply task_in_range.
Qed.

Lemma catch_all_truthy (e : exn) : truthy (status_of e) = true → catch_all e = e.
Proof. unfold catch_all. by intros ->. Qed.

Lemma catch_all_falsy (e : exn) : truthy (status_of e) = false → catch_all e = network_error.
Proof. unfold catch_all. by intros ->. Qed.

Lemma catch_all_error_of (status : Z) (statusText : string) (payload : text) :
  status ≠ 0 →
  catch_all (error_of status statusText payload) = error_of status statusText payload.
Proof.
  intros Hst. apply catch_all_truthy. rewrite status_of_error_of. simpl.
  apply negb_true_iff. lia.
Qed.

(** C5, as amended: a 2xx response whose non-empty body is not JSON makes
    [JSON.parse] throw inside the [try] of [request]; the [SyntaxError]
    carries no status, so the outer [catch] turns it into the status-0
    network error, which is what the caller receives. *)
Theorem unparseable_success (w : world) (i : nat) (a : args) (k : after)
    (status : Z) (statusText : string) :
  tasks w !! i = Some (Fetching a k) → ok status = true →
  result_of Garbled = Throws SyntaxError
  ∧ tasks (step w (FetchSettles i (Response status statusText Garbled))) !! i
    = Some (Finished (Throws network_error)).
Proof.
  intros Ht Hok. split; [done|].
  rewrite (step_fetch _ _ _ _ _ Ht), responded_unrecovered.
  - simpl. rewrite Hok. simpl. by eapply finish_throws_task.
  - simpl. by rewrite (ok_not_401 _ Hok).
Qed.

Lemma unparseable_success_witness :
  let w := run (construct ∅) [CallRequest (get "/api/v1/trips/active")] in
  tasks (step w (FetchSettles 0 (Response 200 "OK" Garbled))) !! 0%nat
  = Some (Finished (Throws network_error)).
Proof.
  intros w.
  exact (proj2 (unparseable_success w 0%nat (get "/api/v1/trips/active") HandBack
                  200 "OK" eq_refl eq_refl)).
Defined.

(** C5, the claim as stated fails: the parse failure does not reach the
    caller as a [SyntaxError]; it is normalised. *)
Lemma parse_failure_is_normalised :
  let w := run (construct {[KEY := Doc a1_r1]})
             [CallRequest (get "/api/v1/users/me");
              FetchSettles 0 (Response 200 "OK" Garbled)] in
  tasks w !! 0%nat
  = Some (Finished (Throws
      (Thrown [("status", JNum 0);
               ("message", JStr "Network error. Please check your connection.")])))
  ∧ tasks w !! 0%nat ≠ Some (Finished (Throws SyntaxError)).
Proof. vm_compute. split; [done|discriminate]. Qed.

Lemma refreshed_false (i : nat) (a : args) (k : after) (w : world) :
  refreshed i a k false w = set_task i (Finished (Throws session_expired)) w.
Proof.
  unfold refreshed, caught.
  rewrite (catch_all_truthy session_expired) by reflexivity.
  apply finish_throws.
Qed.

Lemma error_of_not_network_error (status : Z) (statusText : string) (payload : text) :
  error_of status statusText payload = network_error → status = 0.
Proof.
  intros H. pose proof (status_of_error_of status statusText payload) as Hs.
  rewrite H in Hs. simpl in Hs. congruence.
Qed.

(** C6, as amended: when the [fetch] of a call is rejected, the caller
    receives the status-0 network error; and the caller receives that error
    exactly when the [fetch] was rejected, or the response was 2xx with a
    non-empty body that is not JSON, or the response carried the status 0. *)
Theorem network_error_exactly (w : world) (i : nat) (a : args) (k : after) (r : settled) :
  tasks w !! i = Some (Fetching a k) →
  tasks (step w (FetchSettles i Rejected)) !! i = Some (Finished (Throws network_error))
  ∧ (tasks (step w (FetchSettles i r)) !! i = Some (Finished (Throws network_error))
     ↔ unreadable r).
Proof.
  intros Ht. pose proof (task_in_range _ _ _ Ht) as Hi. split.
  { rewrite (step_fetch _ _ _ _ _ Ht). simpl. by eapply finish_throws_task. }
  rewrite (step_fetch _ _ _ _ _ Ht).
  destruct (recovers a r) eqn:Hrec.
  - (* the 401 that calls for a refresh never ends in the network error *)
    destruct r as [|status statusText payload]; [done|]. simpl in Hrec.
    unfold responded. rewrite Hrec.
    assert (status = 401) as -> by lia.
    split; [|intros [?|[? _]]; done].
    destruct (refreshAccessToken w) as [w' [b|p]] eqn:E.
    + apply refreshAccessToken_now in E as (-> & -> & _).
      rewrite refreshed_false. simpl.
      rewrite list_lookup_insert_eq by done. discriminate.
    + simpl. pose proof (refreshAccessToken_tokens w) as (_ & _ & _ & Hts & _).
      rewrite E in Hts. simpl in Hts.
      rewrite list_lookup_insert_eq by (by rewrite Hts). discriminate.
  - rewrite responded_unrecovered by done.
    destruct r as [|status statusText payload]; simpl.
    { split; [done|]. intros _. by eapply finish_throws_task. }
    destruct (ok status) eqn:Hok; simpl.
    + pose proof (ok_not_0 _ Hok) as H0.
      destruct payload as [| |v]; simpl.
      * split; [|intros [?|[_ ?]]; done].
        destruct k; simpl.
        -- rewrite list_lookup_insert_eq by done. discriminate.
        -- rewrite list_lookup_insert_eq by done. discriminate.
      * split; [eauto|]. intros _. by eapply finish_throws_task.
      * split; [|intros [?|[_ ?]]; done].
        destruct k; simpl.
        -- rewrite list_lookup_insert_eq by done. discriminate.
        -- destruct (setTokens v w) as [w'|e] eqn:E; simpl.
           ++ apply setTokens_frame in E as (_ & Hts & _).
              rewrite list_lookup_insert_eq by (by rewrite Hts). discriminate.
           ++ rewrite list_lookup_insert_eq by done.
              pose proof (setTokens_throws _ _ _ E) as ->.
              simpl in E. injection E as <-. discriminate.
    + destruct (decide (status = 0)) as [->|Hne].
      * rewrite catch_all_falsy by (by rewrite status_of_error_of).
        split; [eauto|]. intros _. by eapply finish_throws_task.
      * rewrite catch_all_error_of by done.
        rewrite (finish_throws_task _ _ _ _ _ Ht).
        split; [|intros [?|[? _]]; done].
        intros H. left.
        apply (error_of_not_network_error status statusText payload). congruence.
Qed.

Lemma network_error_exactly_witness :
  let w := run (construct ∅) [CallRequest (get "/api/v1/trips/active")] in
  tasks (step w (FetchSettles 0 Rejected)) !! 0%nat = Some (Finished (Throws network_error))
  ∧ tasks (step w (FetchSettles 0 (Response 201 "Created" Garbled))) !! 0%nat
    = Some (Finished (Throws network_error)).
Proof.
  intros w.
  pose proof (network_error_exactly w 0%nat (get "/api/v1/trips/active") HandBack
                (Response 201 "Created" Garbled) eq_refl) as [H1 H2].
  split; [exact H1|]. apply H2. right. done.
Defined.

(** C6, the claim as stated fails: status 0 also reaches the caller when a
    response was received, here a 201 whose body is not JSON. *)
Lemma status_0_with_a_response :
  let w := run (construct {[KEY := Doc a1_r1]})
             [CallRequest (mkArgs "/api/v1/trips/start"
                             (POST (Some (Doc (JObj [("transportMode", JStr "WALKING")]))))
                             true true);
              FetchSettles 0 (Response 201 "Created" Garbled)] in
  ∃ e, tasks w !! 0%nat = Some (Finished (Throws e))
       ∧ status_of e = Some (JNum 0).
Proof. eexists. vm_compute. done. Qed.

(** C7, as amended: a response that is not [ok], calls for no refresh and
    has a status other than 0 makes [request] fail with an error whose
    [status] is the status of the response, whatever the body says.  When the
    body is JSON, of any shape, the other properties of the error are the own
    properties of the parsed value, unchanged; when it is not, the error is
    the status of the response with its status text as message. *)
Theorem error_response (w : world) (i : nat) (a : args) (k : after)
    (status : Z) (statusText : string) (payload : text) :
  tasks w !! i = Some (Fetching a k) →
  recovers a (Response status statusText payload) = false →
  ok status = false → status ≠ 0 →
  ∃ o,
    tasks (step w (FetchSettles i (Response status statusText payload))) !! i
    = Some (Finished (Throws (Thrown o)))
    ∧ assoc "status" o = Some (JNum status)
    ∧ match payload with
      | Doc v => ∀ key, key ≠ "status" → assoc key o = assoc key (spread v)
      | _ => o = [("status", JNum status); ("message", JStr statusText)]
      end.
Proof.
  intros Ht Hrec Hok Hst.
  exists (assign "status" (JNum status)
            (spread match JSON_parse payload with
                    | Returns v => v
                    | Throws _ => JObj [("status", JNum status); ("message", JStr statusText)]
                    end)).
  split; [|split].
  - rewrite (step_fetch _ _ _ _ _ Ht), responded_unrecovered by done.
    simpl. rewrite Hok. simpl. rewrite catch_all_error_of by done.
    by eapply finish_throws_task.
  - apply assoc_assign_eq.
  - destruct payload as [| |v]; simpl; try done.
    intros key Hkey. by apply assoc_assign_ne.
Qed.

Lemma error_response_witness :
  let w := run (construct ∅) [CallRegister "Ada" "ada@example.org" "+4412345678" "secret12"] in
  let payload := JObj [("message", JStr "Email already registered")] in
  ∃ o, tasks (step w (FetchSettles 0 (Response 409 "Conflict" (Doc payload)))) !! 0%nat
       = Some (Finished (Throws (Thrown o)))
       ∧ assoc "status" o = Some (JNum 409)
       ∧ assoc "message" o = Some (JStr "Email already registered").
Proof.
  intros w payload.
  destruct (error_response w 0%nat
              (register_args "Ada" "ada@example.org" "+4412345678" "secret12")
              StoreTokens 409 "Conflict" (Doc payload))
    as (o & H1 & H2 & H3); [reflexivity|reflexivity|reflexivity|lia|].
  exists o. split; [exact H1|]. split; [exact H2|].
  rewrite H3 by discriminate. reflexivity.
Defined.

(** C7, the claim as stated fails: the [status] of the body is not handed on
    to the caller, the status of the response replaces it. *)
Lemma body_status_is_replaced :
  let payload := JObj [("status", JNum 400); ("message", JStr "Email already registered")] in
  let w := run (construct ∅)
             [CallRegister "Ada" "ada@example.org" "+4412345678" "secret12";
              FetchSettles 0 (Response 409 "Conflict" (Doc payload))] in
  tasks w !! 0%nat
  = Some (Finished (Throws
      (Thrown [("status", JNum 409); ("message", JStr "Email already registered")])))
  ∧ prop "status" payload = Returns (Some (JNum 400)).
Proof. vm_compute. done. Qed.

(** ** No partial credential state *)

Lemma setTokens_balanced (tokens : json) (w w' : world) :
  paired tokens → setTokens tokens w = Returns w' → balanced w'.
Proof.
  unfold paired, field, balanced. intros Hp E.
  apply setTokens_stores in E as (Ha & Hr & _). by rewrite Ha, Hr in Hp.
Qed.

Lemma finish_balanced (i : nat) (k : after) (r : outcome json) (w : world) :
  balanced w → (k = StoreTokens → ∀ v, r = Returns v → paired v) →
  balanced (finish i k r w).
Proof.
  intros Hw Hr. unfold finish. destruct k, r as [v|e]; try done.
  destruct (setTokens v w) as [w'|e] eqn:E; [|done].
  unfold balanced. simpl. eapply setTokens_balanced; eauto.
Qed.

Lemma unrecovered_paired (r : settled) (v : json) :
  settled_paired r → caught (unrecovered r) = Returns v → paired v.
Proof.
  destruct r as [|status statusText payload]; simpl; [done|].
  destruct (ok status); simpl; [|done].
  destruct payload as [| |v']; simpl; try done.
  - intros _ [= <-]. done.
  - by intros Hp [= <-].
Qed.

Lemma responded_balanced (i : nat) (a : args) (k : after) (r : settled) (w : world) :
  balanced w → (k = StoreTokens → settled_paired r) → balanced (responded i a k r w).
Proof.
  intros Hw Hr. destruct (recovers a r) eqn:Hrec.
  - destruct r as [|status statusText payload]; [done|].
    unfold responded. simpl in Hrec. rewrite Hrec.
    pose proof (refreshAccessToken_tokens w) as (Ha & Hrt & _).
    destruct (refreshAccessToken w) as [w' [b|p]]; simpl in *.
    + unfold balanced. destruct (refreshed_this i a k b w') as [-> _].
      by rewrite Ha, Hrt.
    + unfold balanced. simpl. by rewrite Ha, Hrt.
  - rewrite responded_unrecovered by done.
    apply finish_balanced; [done|]. intros Hk v. apply unrecovered_paired. by apply Hr.
Qed.

Lemma refresh_try_balanced (r : settled) (w : world) :
  settled_paired r → balanced (refresh_try r w).1.
Proof.
  intros Hr. pose proof (refresh_try_cases r w) as Hc.
  destruct (refresh_try r w) as [w1 [|]]; simpl.
  - destruct Hc as (status & statusText & tokens & -> & _ & _ & E).
    eapply setTokens_balanced; eauto.
  - by destruct Hc as [-> _].
Qed.

Lemma refresh_settled_balanced (r : settled) (w : world) :
  balanced w → settled_paired r → balanced (refresh_settled r w).
Proof.
  intros Hw Hr.
  destruct (isRefreshing (this w)) eqn:Hi;
    [destruct (refreshPromise (this w)) as [p|] eqn:Hp|].
  - destruct (refresh_settled_this r w p Hi Hp) as [Hthis _].
    unfold balanced. rewrite Hthis. simpl. by apply refresh_try_balanced.
  - unfold refresh_settled. by rewrite Hi, Hp.
  - unfold refresh_settled. by rewrite Hi.
Qed.

Lemma step_balanced (w : world) (e : event) :
  balanced w → event_paired w e → balanced (step w e).
Proof.
  intros Hw He. destruct e as [a|em pw|n em ph pw|tokens| | |i r|r]; simpl; try done.
  - destruct (setTokens tokens w) as [w'|e] eqn:E; [|done].
    eapply setTokens_balanced; eauto.
  - simpl in He. unfold stores in He.
    destruct (tasks w !! i) as [[a k|a k p|res]|]; try done.
    apply responded_balanced; [done|]. by intros ->.
  - by apply refresh_settled_balanced.
Qed.

Lemma construct_balanced (storage : gmap string text) :
  match storage !! KEY with Some t => text_paired t | None => True end →
  balanced (construct storage).
Proof.
  unfold construct, loadTokens, fresh. simpl.
  destruct (storage !! KEY) as [[| |v]|]; simpl; try done.
  unfold paired, field, balanced.
  destruct (prop "accessToken" v) eqn:Ea; [|done].
  destruct (prop "refreshToken" v) eqn:Er; [done|].
  destruct v; discriminate.
Qed.

(** C4, as amended: the client keeps no credential apart from its pair.  If
    the record found in [localStorage] at construction and every value that
    later reaches the credentials (the argument of [setTokens], the body of
    the response to a [login], a [register] or a refresh) carries both
    credentials or neither, then after any sequence of calls and settlements
    the client holds both credentials or neither.  Nothing is asked of the
    responses to the other calls, whatever they carry. *)
Theorem credentials_paired (storage : gmap string text) (es : list event) :
  match storage !! KEY with Some t => text_paired t | None => True end →
  all_paired (construct storage) es →
  balanced (run (construct storage) es).
Proof.
  intros Hs Hes. apply construct_balanced in Hs.
  revert Hs Hes. generalize (construct storage) as w.
  induction es as [|e es IH]; intros w Hw Hes; [done|].
  destruct Hes as [He Hes]. change (balanced (run (step w e) es)).
  apply IH; [|done]. by apply step_balanced.
Qed.

Lemma credentials_paired_witness :
  let w := run (construct {[KEY := Doc a1_r1]})
             [CallRequest (get "/api/v1/users/me");
              FetchSettles 0 (Response 401 "Unauthorized" Empty);
              RefreshSettles (Response 200 "OK" (Doc a2_r2));
              FetchSettles 0 (Response 200 "OK"
                (Doc (JObj [("id", JStr "u1"); ("accessToken", JStr "zz")])));
              CallLogin "ada@example.org" "secret12";
              FetchSettles 1 (Response 200 "OK" (Doc a1_r1))] in
  balanced w ∧ accessToken (this w) = Some (JStr "a1").
Proof.
  intros w. split; [|reflexivity].
  apply credentials_paired.
  - rewrite lookup_singleton_eq. reflexivity.
  - vm_compute. repeat split.
Defined.

(** C4, the claim as stated fails: built over the record
    [{"accessToken":"a1"}], the client holds an access credential and no
    refresh credential. *)
Lemma half_pair_after_construction :
  let w := construct {[KEY := Doc only_a1]} in
  isAuthenticated w = true ∧ truthy (refreshToken (this w)) = false.
Proof. vm_compute. done. Qed.

(** ** Counting the calls of [fetch] *)

Lemma calls_for_snoc_api (i j : nat) (url : string) (init : RequestInit) (l : list call) :
  length (filter (is_for i) (l ++ [ApiCall j url init])%list)
  = if Nat.eqb i j then S (length (filter (is_for i) l)) else length (filter (is_for i) l).
Proof.
  rewrite filter_app, length_app. unfold filter at 2. simpl.
  destruct (Nat.eqb i j); simpl; lia.
Qed.

Lemma calls_for_snoc_refresh (i p : nat) (v : value) (l : list call) :
  length (filter (is_for i) (l ++ [RefreshCall p v])%list) = length (filter (is_for i) l).
Proof. rewrite filter_app, length_app. simpl. lia. Qed.

Lemma refresh_calls_snoc_api (j : nat) (url : string) (init : RequestInit) (l : list call) :
  length (filter is_refresh (l ++ [ApiCall j url init])%list) = length (filter is_refresh l).
Proof. rewrite filter_app, length_app. simpl. lia. Qed.

Lemma refresh_calls_snoc_refresh (p : nat) (v : value) (l : list call) :
  length (filter is_refresh (l ++ [RefreshCall p v])%list) = S (length (filter is_refresh l)).
Proof. rewrite filter_app, length_app. simpl. lia. Qed.

Lemma calls_for_request (i j : nat) (a : args) (w : world) :
  calls_for i (request j a w)
  = if Nat.eqb i j then S (calls_for i w) else calls_for i w.
Proof. unfold calls_for, request. simpl. apply calls_for_snoc_api. Qed.

Lemma refresh_calls_request (j : nat) (a : args) (w : world) :
  refresh_calls (request j a w) = refresh_calls w.
Proof. unfold refresh_calls, request. simpl. apply refresh_calls_snoc_api. Qed.

Lemma refresh_calls_finish (i : nat) (k : after) (r : outcome json) (w : world) :
  refresh_calls (finish i k r w) = refresh_calls w.
Proof. unfold refresh_calls. by destruct (finish_frame i k r w) as (-> & _). Qed.

Lemma calls_for_finish (i j : nat) (k : after) (r : outcome json) (w : world) :
  calls_for i (finish j k r w) = calls_for i w.
Proof. unfold calls_for. by destruct (finish_frame j k r w) as (-> & _). Qed.

(** What [refreshAccessToken] does to the world, case by case. *)
Lemma refreshAccessToken_cases (w : world) :
  let w' := (refreshAccessToken w).1 in
  tasks w' = tasks w ∧ waiting w' = waiting w
  ∧ accessToken (this w') = accessToken (this w)
  ∧ refreshToken (this w') = refreshToken (this w)
  ∧ localStorage w' = localStorage w
  ∧ (∀ i, calls_for i w' = calls_for i w)
  ∧ if truthy (refreshToken (this w)) then
      match isRefreshing (this w), refreshPromise (this w) with
      | true, Some p =>
          refreshAccessToken w = (w, Later p)
      | _, _ =>
          (refreshAccessToken w).2 = Later (promises w)
          ∧ isRefreshing (this w') = true
          ∧ refreshPromise (this w') = Some (promises w)
          ∧ refresh_calls w' = S (refresh_calls w)
      end
    else refreshAccessToken w = (w, Now false).
Proof.
  unfold refreshAccessToken.
  destruct (truthy (refreshToken (this w))); simpl; [|done].
  destruct (isRefreshing (this w)), (refreshPromise (this w)); simpl;
    repeat split; try done;
    try (intros i; unfold calls_for; simpl; apply calls_for_snoc_refresh);
    unfold refresh_calls; simpl; apply refresh_calls_snoc_refresh.
Qed.

Lemma refresh_try_frame (r : settled) (w : world) :
  let w' := (refresh_try r w).1 in
  sent w' = sent w ∧ tasks w' = tasks w ∧ waiting w' = waiting w
  ∧ promises w' = promises w
  ∧ isRefreshing (this w') = isRefreshing (this w)
  ∧ refreshPromise (this w') = refreshPromise (this w).
Proof.
  pose proof (refresh_try_cases r w) as Hc.
  destruct (refresh_try r w) as [w1 [|]]; simpl.
  - destruct Hc as (status & statusText & tokens & _ & _ & _ & E).
    by apply setTokens_frame in E.
  - by destruct Hc as [-> _].
Qed.

(** ** One task among the others *)

Lemma refreshed_frame (j : nat) (a : args) (k : after) (b : bool) (w : world) :
  let w' := refreshed j a k b w in
  waiting w' = waiting w ∧ promises w' = promises w
  ∧ this w' = this w
  ∧ refresh_calls w' = refresh_calls w
  ∧ length (tasks w') = length (tasks w).
Proof.
  destruct b; cbv zeta.
  - unfold refreshed. simpl. rewrite length_insert. repeat split.
    apply (refresh_calls_request j (no_retry a) w).
  - rewrite refreshed_false. simpl. by rewrite length_insert.
Qed.

Lemma refreshed_other (i j : nat) (a : args) (k : after) (b : bool) (w : world) :
  i ≠ j →
  tasks (refreshed j a k b w) !! i = tasks w !! i
  ∧ calls_for i (refreshed j a k b w) = calls_for i w.
Proof.
  intros Hne. destruct b.
  - unfold refreshed. simpl. rewrite list_lookup_insert_ne by done. split; [done|].
    change (calls_for i (request j (no_retry a) w) = calls_for i w).
    rewrite calls_for_request.
    by destruct (Nat.eqb_spec i j).
  - rewrite refreshed_false. simpl. by rewrite list_lookup_insert_ne.
Qed.

Lemma refreshed_same (i : nat) (a : args) (k : after) (b : bool) (w : world) (t : task) :
  tasks w !! i = Some t →
  tasks (refreshed i a k b w) !! i
  = Some (if b then Fetching (no_retry a) k else Finished (Throws session_expired))
  ∧ calls_for i (refreshed i a k b w) = (if b then S (calls_for i w) else calls_for i w).
Proof.
  intros Ht. pose proof (task_in_range _ _ _ Ht) as Hi. destruct b.
  - unfold refreshed. simpl. rewrite list_lookup_insert_eq by done. split; [done|].
    change (calls_for i (request i (no_retry a) w) = S (calls_for i w)).
    by rewrite calls_for_request, Nat.eqb_refl.
  - rewrite refreshed_false. simpl. by rewrite list_lookup_insert_eq.
Qed.

Lemma responded_other (i j : nat) (a : args) (k : after) (r : settled) (w : world) :
  i ≠ j →
  tasks (responded j a k r w) !! i = tasks w !! i
  ∧ calls_for i (responded j a k r w) = calls_for i w.
Proof.
  intros Hne. destruct (recovers a r) eqn:Hrec.
  - destruct r as [|status statusText payload]; [done|].
    unfold responded. simpl in Hrec. rewrite Hrec.
    pose proof (refreshAccessToken_cases w) as (Hts & _ & _ & _ & _ & Hc & _).
    destruct (refreshAccessToken w) as [w' [b|p]]; simpl in *.
    + destruct (refreshed_other i j a k b w' Hne) as [-> ->]. by rewrite Hts, Hc.
    + rewrite list_lookup_insert_ne by done. rewrite Hts. split; [done|]. apply Hc.
  - rewrite responded_unrecovered by done.
    split; [by apply finish_other|apply calls_for_finish].
Qed.

(** While a refresh is in flight, settling the [fetch] of a task starts no
    other: the marker stays, no refresh call is made, nobody stops waiting. *)
Lemma responded_in_flight (j : nat) (a : args) (k : after) (r : settled) (w : world) (p : nat) :
  isRefreshing (this w) = true → refreshPromise (this w) = Some p →
  let w' := responded j a k r w in
  isRefreshing (this w') = true ∧ refreshPromise (this w') = Some p
  ∧ refresh_calls w' = refresh_calls w
  ∧ (∀ x, x ∈ waiting w → x ∈ waiting w').
Proof.
  intros Hi Hp. destruct (recovers a r) eqn:Hrec.
  - destruct r as [|status statusText payload]; [done|].
    unfold responded. simpl in Hrec. rewrite Hrec.
    pose proof (refreshAccessToken_cases w) as (_ & _ & _ & _ & _ & _ & Hc).
    rewrite Hi, Hp in Hc.
    destruct (truthy (refreshToken (this w))); rewrite Hc; cbv beta iota zeta.
    + simpl. repeat split; try done. intros x Hx. apply elem_of_app. by left.
    + destruct (refreshed_frame j a k false w) as (-> & _ & -> & -> & _). done.
  - rewrite responded_unrecovered by done. simpl.
    destruct (finish_frame j k (caught (unrecovered r)) w) as (_ & -> & _ & -> & -> & _).
    by rewrite refresh_calls_finish.
Qed.

Lemma step_in_flight (w : world) (e : event) (p : nat) :
  isRefreshing (this w) = true → refreshPromise (this w) = Some p →
  settles_refresh e = false →
  isRefreshing (this (step w e)) = true ∧ refreshPromise (this (step w e)) = Some p
  ∧ refresh_calls (step w e) = refresh_calls w
  ∧ (∀ x, x ∈ waiting w → x ∈ waiting (step w e)).
Proof.
  intros Hi Hp He.
  destruct e as [a|em pw|n em ph pw|tokens| | |j r|r]; simpl; try done;
    try (repeat split; try done;
         unfold refresh_calls, spawn, request; simpl; apply refresh_calls_snoc_api).
  - destruct (setTokens tokens w) as [w'|e] eqn:E; [|done].
    apply setTokens_frame in E as (Hs & _ & -> & _ & -> & ->).
    unfold refresh_calls. by rewrite Hs.
  - destruct (tasks w !! j) as [[a k|a k q|res]|]; try done.
    by apply responded_in_flight.
Qed.

Lemma wake_other (p : nat) (b : bool) (w : world) (i j : nat) :
  i ≠ j →
  tasks (wake p b w j) !! i = tasks w !! i
  ∧ calls_for i (wake p b w j) = calls_for i w.
Proof.
  intros Hne. unfold wake.
  destruct (tasks w !! j) as [[a k|a k p'|r]|]; try done.
  destruct (Nat.eqb p' p); [by apply refreshed_other|done].
Qed.

Lemma wake_frame (p : nat) (b : bool) (w : world) (j : nat) :
  waiting (wake p b w j) = waiting w
  ∧ promises (wake p b w j) = promises w
  ∧ refresh_calls (wake p b w j) = refresh_calls w
  ∧ length (tasks (wake p b w j)) = length (tasks w).
Proof.
  unfold wake. destruct (tasks w !! j) as [[a k|a k p'|r]|]; try done.
  destruct (Nat.eqb p' p); [|done].
  by destruct (refreshed_frame j a k b w) as (-> & -> & _ & -> & ->).
Qed.

Lemma wakes_frame (p : nat) (b : bool) (l : list nat) (w : world) :
  waiting (foldl (wake p b) w l) = waiting w
  ∧ promises (foldl (wake p b) w l) = promises w
  ∧ refresh_calls (foldl (wake p b) w l) = refresh_calls w
  ∧ length (tasks (foldl (wake p b) w l)) = length (tasks w).
Proof.
  revert w. induction l as [|j l IH]; intros w; simpl; [done|].
  destruct (IH (wake p b w j)) as (-> & -> & -> & ->). apply wake_frame.
Qed.

(** A task that does not await the refresh promise is not woken. *)
Lemma wakes_untouched (p : nat) (b : bool) (l : list nat) (w : world) (i : nat) (t : task) :
  tasks w !! i = Some t → awaits_refresh t = false →
  tasks (foldl (wake p b) w l) !! i = Some t
  ∧ calls_for i (foldl (wake p b) w l) = calls_for i w.
Proof.
  revert w. induction l as [|j l IH]; intros w Ht Hna; simpl; [done|].
  destruct (decide (i = j)) as [<-|Hne].
  - assert (wake p b w i = w) as ->; [|by apply IH].
    unfold wake. rewrite Ht. by destruct t.
  - destruct (wake_other p b w i j Hne) as [Hts Hc].
    destruct (IH (wake p b w j)) as [-> ->]; [by rewrite Hts|done|done].
Qed.

(** A task that awaits the promise [p] is woken once, when [p] settles. *)
Lemma wakes_target (p : nat) (b : bool) (l : list nat) (w : world)
    (i : nat) (a : args) (k : after) :
  tasks w !! i = Some (Refreshing a k p) → i ∈ l →
  tasks (foldl (wake p b) w l) !! i
  = Some (if b then Fetching (no_retry a) k else Finished (Throws session_expired))
  ∧ calls_for i (foldl (wake p b) w l) = (if b then S (calls_for i w) else calls_for i w).
Proof.
  revert w. induction l as [|j l IH]; intros w Ht Hin; simpl.
  { by apply elem_of_nil in Hin. }
  destruct (decide (i = j)) as [<-|Hne].
  - assert (wake p b w i = refreshed i a k b w) as ->.
    { unfold wake. by rewrite Ht, Nat.eqb_refl. }
    destruct (refreshed_same i a k b w _ Ht) as [Hts Hc].
    destruct (wakes_untouched p b l (refreshed i a k b w) i _ Hts) as [-> ->].
    + by destruct b.
    + done.
  - apply elem_of_cons in Hin as [?|Hin]; [done|].
    destruct (wake_other p b w i j Hne) as [Hts Hc].
    destruct (IH (wake p b w j)) as [-> ->]; [by rewrite Hts|done|].
    by rewrite Hc.
Qed.

Lemma spawn_other (a : args) (k : after) (w : world) (i : nat) (t : task) :
  tasks w !! i = Some t →
  tasks (spawn a k w) !! i = Some t ∧ calls_for i (spawn a k w) = calls_for i w.
Proof.
  intros Ht. pose proof (task_in_range _ _ _ Ht) as Hi. unfold spawn. split.
  - simpl. by rewrite lookup_app_l.
  - rewrite calls_for_request. destruct (Nat.eqb_spec i (length (tasks w))); [lia|done].
Qed.

(** Every other event leaves the task and its calls of [fetch] as they are. *)
Lemma step_untargeted (w : world) (e : event) (i : nat) (t : task) :
  tasks w !! i = Some t → ¬ targets i t e →
  tasks (step w e) !! i = Some t ∧ calls_for i (step w e) = calls_for i w.
Proof.
  intros Ht Hnt.
  destruct e as [a|em pw|n em ph pw|tokens| | |j r|r]; simpl;
    try done; try by apply spawn_other.
  - destruct (setTokens tokens w) as [w'|e] eqn:E; [|done].
    apply setTokens_frame in E as (Hs & Hts & _).
    unfold calls_for. by rewrite Hs, Hts.
  - destruct (tasks w !! j) as [[a k|a k q|res]|] eqn:Hj; try done.
    assert (i ≠ j) as Hne.
    { intros <-. rewrite Ht in Hj. injection Hj as ->. by apply Hnt. }
    destruct (responded_other i j a k r w Hne) as [-> ->]. done.
  - unfold refresh_settled.
    destruct (isRefreshing (this w)); [|done].
    destruct (refreshPromise (this w)) as [p|]; [|done].
    pose proof (refresh_try_frame r w) as (Hs & Hts & Hw & _).
    destruct (refresh_try r w) as [w1 b]. simpl in *.
    assert (awaits_refresh t = false) as Hna.
    { destruct t; try done; by destruct Hnt. }
    destruct (wakes_untouched p b (waiting w1)
                (with_waiting [] (refresh_finally w1)) i t) as [-> ->]; try done.
    + simpl. by rewrite Hts.
    + unfold calls_for. simpl. by rewrite Hs.
Qed.

Lemma run_app (w : world) (es1 es2 : list event) :
  run w (es1 ++ es2) = run (run w es1) es2.
Proof. unfold run. apply foldl_app. Qed.

Lemma run_cons (w : world) (e : event) (es : list event) :
  run w (e :: es) = run (step w e) es.
Proof. done. Qed.

Lemma run_untargeted (w : world) (es : list event) (i : nat) (t : task) :
  tasks w !! i = Some t → Forall (λ e, ¬ targets i t e) es →
  tasks (run w es) !! i = Some t ∧ calls_for i (run w es) = calls_for i w.
Proof.
  intros Ht Hes. revert w Ht. unfold run.
  induction Hes as [|e es He Hes IH]; intros w Ht; simpl; [done|].
  destruct (step_untargeted w e i t Ht He) as [Hts Hc].
  destruct (IH _ Hts) as [-> ->]. done.
Qed.


(** A task whose call is answered 401, with [requiresAuth] and
    [retryOnUnauthorized] set and a refresh credential held, awaits the
    refresh promise: the one in flight if there is one, a new one otherwise,
    for which one refresh call is made. *)
Lemma responded_401 (i : nat) (a : args) (k : after) (statusText : string)
    (payload : text) (w : world) :
  requiresAuth a = true → retryOnUnauthorized a = true →
  tasks w !! i = Some (Fetching a k) →
  truthy (refreshToken (this w)) = true →
  let w1 := responded i a k (Response 401 statusText payload) w in
  ∃ p, tasks w1 !! i = Some (Refreshing a k p)
       ∧ isRefreshing (this w1) = true ∧ refreshPromise (this w1) = Some p
       ∧ i ∈ waiting w1
       ∧ (∀ x, x ∈ waiting w → x ∈ waiting w1)
       ∧ calls_for i w1 = calls_for i w
       ∧ refreshToken (this w1) = refreshToken (this w)
       ∧ match isRefreshing (this w), refreshPromise (this w) with
         | true, Some q => p = q ∧ refresh_calls w1 = refresh_calls w
         | _, _ => p = promises w ∧ refresh_calls w1 = S (refresh_calls w)
         end.
Proof.
  intros Hauth Hretry Ht Hheld. pose proof (task_in_range _ _ _ Ht) as Hi.
  unfold responded. rewrite Hauth, Hretry. cbn [Z.eqb Pos.eqb andb].
  pose proof (refreshAccessToken_cases w) as (Hts & Hw & _ & Hrt & _ & Hc & Hcase).
  rewrite Hheld in Hcase.
  destruct (isRefreshing (this w)) eqn:Hir;
    [destruct (refreshPromise (this w)) as [q|] eqn:Hrp|].
  - rewrite Hcase. cbv beta iota zeta. exists q. simpl.
    rewrite list_lookup_insert_eq by done. rewrite Hir, Hrp.
    repeat split; try done.
    + apply elem_of_app. right. by apply list_elem_of_singleton.
    + intros x Hx. apply elem_of_app. by left.
  - destruct Hcase as (Hl & Hir' & Hrp' & Hrc).
    destruct (refreshAccessToken w) as [w' aw]. simpl in *. subst aw.
    exists (promises w). simpl. rewrite list_lookup_insert_eq by (by rewrite Hts).
    rewrite Hw. repeat split; try done.
    + apply elem_of_app. right. by apply list_elem_of_singleton.
    + intros x Hx. apply elem_of_app. by left.
    + apply Hc.
  - destruct Hcase as (Hl & Hir' & Hrp' & Hrc).
    destruct (refreshAccessToken w) as [w' aw]. simpl in *. subst aw.
    exists (promises w). simpl. rewrite list_lookup_insert_eq by (by rewrite Hts).
    rewrite Hw. repeat split; try done.
    + apply elem_of_app. right. by apply list_elem_of_singleton.
    + intros x Hx. apply elem_of_app. by left.
    + apply Hc.
Qed.

(** ** What is handed to [fetch] *)

Local Open Scope list_scope.

(** The list of the calls of [fetch] only grows. *)
Lemma refreshed_grows (i : nat) (a : args) (k : after) (b : bool) (w : world) :
  ∃ l, sent (refreshed i a k b w) = sent w ++ l.
Proof.
  destruct b.
  - unfold refreshed, request. simpl. eauto.
  - rewrite refreshed_false. simpl. exists []. by rewrite app_nil_r.
Qed.

Lemma responded_grows (j : nat) (a : args) (k : after) (r : settled) (w : world) :
  ∃ l, sent (responded j a k r w) = sent w ++ l.
Proof.
  destruct (recovers a r) eqn:Hrec.
  - destruct r as [|status statusText payload]; [done|].
    unfold responded. simpl in Hrec. rewrite Hrec.
    assert (Hg : ∃ l, sent (refreshAccessToken w).1 = sent w ++ l).
    { unfold refreshAccessToken.
      destruct (truthy (refreshToken (this w))); simpl;
        [|exists []; by rewrite app_nil_r].
      destruct (isRefreshing (this w)), (refreshPromise (this w)); simpl; eauto;
        exists []; by rewrite app_nil_r. }
    destruct Hg as [l Hl].
    destruct (refreshAccessToken w) as [w' [b|p]]; simpl in *.
    + destruct (refreshed_grows j a k b w') as [l' ->]. rewrite Hl, <- app_assoc. eauto.
    + eauto.
  - rewrite responded_unrecovered by done.
    destruct (finish_frame j k (caught (unrecovered r)) w) as (-> & _).
    exists []. by rewrite app_nil_r.
Qed.

Lemma wakes_grow (p : nat) (b : bool) (l : list nat) (w : world) :
  ∃ l', sent (foldl (wake p b) w l) = sent w ++ l'.
Proof.
  revert w. induction l as [|j l IH]; intros w; simpl.
  { exists []. by rewrite app_nil_r. }
  destruct (IH (wake p b w j)) as [l2 ->].
  assert (∃ l1, sent (wake p b w j) = sent w ++ l1) as [l1 ->].
  { unfold wake. destruct (tasks w !! j) as [[a k|a k q|res]|];
      try (exists []; by rewrite app_nil_r).
    destruct (Nat.eqb q p); [apply refreshed_grows|exists []; by rewrite app_nil_r]. }
  rewrite <- app_assoc. eauto.
Qed.

Lemma step_grows (w : world) (e : event) : ∃ l, sent (step w e) = sent w ++ l.
Proof.
  destruct e as [a|em pw|n em ph pw|tokens| | |j r|r]; simpl;
    try (unfold login, register, spawn, request; simpl; by eauto);
    try (exists []; by rewrite app_nil_r).
  - destruct (setTokens tokens w) as [w'|e] eqn:E.
    + apply setTokens_frame in E as (-> & _). exists []. by rewrite app_nil_r.
    + exists []. by rewrite app_nil_r.
  - destruct (tasks w !! j) as [[a k|a k q|res]|];
      try (exists []; by rewrite app_nil_r).
    apply responded_grows.
  - unfold refresh_settled.
    destruct (isRefreshing (this w)); [|exists []; by rewrite app_nil_r].
    destruct (refreshPromise (this w)) as [p|]; [|exists []; by rewrite app_nil_r].
    pose proof (refresh_try_frame r w) as (Hs & _).
    destruct (refresh_try r w) as [w1 b]. simpl in *.
    destruct (wakes_grow p b (waiting w1)
                (with_waiting [] (refresh_finally w1))) as [l Hl].
    rewrite Hl. simpl. rewrite Hs. eauto.
Qed.

Lemma run_grows (w : world) (es : list event) : ∃ l, sent (run w es) = sent w ++ l.
Proof.
  revert w. induction es as [|e es IH]; intros w.
  { exists []. by rewrite app_nil_r. }
  rewrite run_cons. destruct (IH (step w e)) as [l2 ->].
  destruct (step_grows w e) as [l1 ->]. rewrite <- app_assoc. eauto.
Qed.

(** So the calls made for a task are the same when they are as many. *)
Lemma sent_for_same (i : nat) (w w' : world) (l : list call) :
  sent w' = sent w ++ l → calls_for i w' = calls_for i w → sent_for i w' = sent_for i w.
Proof.
  unfold calls_for, sent_for. intros ->. rewrite filter_app, length_app. intros H.
  assert (filter (is_for i) l = []) as ->; [|by rewrite app_nil_r].
  apply nil_length_inv. lia.
Qed.


Lemma sent_for_run (i : nat) (w : world) (es : list event) :
  calls_for i (run w es) = calls_for i w → sent_for i (run w es) = sent_for i w.
Proof. destruct (run_grows w es) as [l Hl]. by apply (sent_for_same i w _ l). Qed.

Lemma sent_for_none (i : nat) (w : world) : calls_for i w = 0%nat → sent_for i w = [].
Proof. unfold calls_for, sent_for. apply nil_length_inv. Qed.

(** ** At most two calls of [fetch] for a call of [request] *)

Lemma refreshed_accounted (j : nat) (a : args) (k : after) (b : bool) (w : world) (t : task) :
  accounted w → tasks w !! j = Some t → calls_for j w = 1%nat →
  accounted (refreshed j a k b w).
Proof.
  intros Hacc Ht Hc i. destruct (decide (i = j)) as [->|Hne].
  - destruct (refreshed_same j a k b w t Ht) as [-> ->].
    destruct b; simpl; [right|left]; by rewrite ?Hc.
  - destruct (refreshed_other i j a k b w Hne) as [-> ->]. apply Hacc.
Qed.

Lemma wake_accounted (p : nat) (b : bool) (w : world) (j : nat) :
  accounted w → accounted (wake p b w j).
Proof.
  intros Hacc. unfold wake.
  destruct (tasks w !! j) as [[a k|a k q|res]|] eqn:Hj; try done.
  destruct (Nat.eqb q p); [|done].
  eapply refreshed_accounted; eauto.
  specialize (Hacc j). by rewrite Hj in Hacc.
Qed.

Lemma wakes_accounted (p : nat) (b : bool) (l : list nat) (w : world) :
  accounted w → accounted (foldl (wake p b) w l).
Proof.
  revert w. induction l as [|j l IH]; intros w Hacc; simpl; [done|].
  apply IH. by apply wake_accounted.
Qed.

Lemma spawn_accounted (a : args) (k : after) (w : world) :
  accounted w → accounted (spawn a k w).
Proof.
  intros Hacc i. specialize (Hacc i).
  destruct (tasks w !! i) as [t|] eqn:Ht.
  - destruct (spawn_other a k w i t Ht) as [-> ->]. done.
  - apply lookup_ge_None in Ht. unfold spawn.
    rewrite calls_for_request. unfold calls_for in *. simpl.
    destruct (Nat.eqb_spec i (length (tasks w))) as [->|Hne].
    + rewrite lookup_app_r by done. rewrite Nat.sub_diag. simpl. left. by rewrite Hacc.
    + rewrite lookup_ge_None_2; [done|]. rewrite length_app. simpl. lia.
Qed.

Lemma responded_accounted (j : nat) (a : args) (k : after) (r : settled) (w : world) :
  accounted w → tasks w !! j = Some (Fetching a k) → accounted (responded j a k r w).
Proof.
  intros Hacc Hj. pose proof (task_in_range _ _ _ Hj) as Hlt.
  pose proof (Hacc j) as Hcj. rewrite Hj in Hcj.
  destruct (recovers a r) eqn:Hrec.
  - destruct r as [|status statusText payload]; [done|].
    unfold responded. simpl in Hrec. rewrite Hrec.
    assert (Hretry : retryOnUnauthorized a = true).
    { by destruct (status =? 401), (requiresAuth a), (retryOnUnauthorized a). }
    assert (Hc1 : calls_for j w = 1%nat).
    { destruct Hcj as [?|[? _]]; [done|congruence]. }
    pose proof (refreshAccessToken_cases w) as (Hts & _ & _ & _ & _ & Hc & _).
    destruct (refreshAccessToken w) as [w' [b|p]]; simpl in *.
    + apply (refreshed_accounted j a k b w' (Fetching a k)).
      * intros i. rewrite Hts, Hc. apply Hacc.
      * by rewrite Hts.
      * by rewrite Hc.
    + intros i. unfold calls_for in *. simpl. rewrite Hc.
      destruct (decide (i = j)) as [->|Hne].
      * rewrite list_lookup_insert_eq by (by rewrite Hts). done.
      * rewrite list_lookup_insert_ne by done. rewrite Hts. apply Hacc.
  - rewrite responded_unrecovered by done. intros i.
    rewrite calls_for_finish.
    destruct (decide (i = j)) as [->|Hne].
    + destruct (finish_finished j k (caught (unrecovered r)) w Hlt) as [res ->].
      destruct Hcj as [?|[_ ?]]; auto.
    + rewrite finish_other by done. apply Hacc.
Qed.

Lemma step_accounted (w : world) (e : event) : accounted w → accounted (step w e).
Proof.
  intros Hacc.
  destruct e as [a|em pw|n em ph pw|tokens| | |j r|r]; simpl;
    try done; try by apply spawn_accounted.
  - destruct (setTokens tokens w) as [w'|e] eqn:E; [|done].
    apply setTokens_frame in E as (Hs & Hts & _).
    intros i. unfold calls_for. rewrite Hs, Hts. apply Hacc.
  - destruct (tasks w !! j) as [[a k|a k q|res]|] eqn:Hj; try done.
    by apply responded_accounted.
  - unfold refresh_settled.
    destruct (isRefreshing (this w)); [|done].
    destruct (refreshPromise (this w)) as [p|]; [|done].
    pose proof (refresh_try_frame r w) as (Hs & Hts & _).
    destruct (refresh_try r w) as [w1 b]. simpl in *.
    apply wakes_accounted. intros i. unfold calls_for. simpl.
    rewrite Hs, Hts. apply Hacc.
Qed.

Lemma run_accounted (storage : gmap string text) (es : list event) :
  accounted (run (construct storage) es).
Proof.
  assert (Hc : accounted (construct storage)).
  { intros i. unfold construct, loadTokens, fresh, clearTokens. simpl.
    destruct (storage !! KEY) as [t|]; [|done].
    destruct (nonempty t); [|done].
    destruct (JSON_parse t) as [v|]; [|done].
    destruct (prop "accessToken" v); [|done].
    by destruct (prop "refreshToken" v). }
  revert Hc. generalize (construct storage) as w. unfold run.
  induction es as [|e es IH]; intros w Hw; simpl; [done|].
  apply IH. by apply step_accounted.
Qed.


Lemma sent_for_request (i j : nat) (a : args) (w : world) :
  sent_for i (request j a w)
  = if Nat.eqb i j
    then sent_for i w ++ [ApiCall j (url_of a)
                            (mkInit (method (options a)) (body (options a))
                               (build_headers a w))]
    else sent_for i w.
Proof.
  unfold sent_for, request. simpl. rewrite filter_app.
  unfold filter at 2. simpl. destruct (Nat.eqb i j); simpl; [done|].
  by rewrite app_nil_r.
Qed.

Lemma build_headers_this (a : args) (w w' : world) :
  this w = this w' → build_headers a w = build_headers a w'.
Proof. unfold build_headers. by intros ->. Qed.

Lemma wake_other_sent (p : nat) (b : bool) (w : world) (i j : nat) :
  i ≠ j → sent_for i (wake p b w j) = sent_for i w.
Proof.
  intros Hne. unfold wake.
  destruct (tasks w !! j) as [[a k|a k q|r]|]; try done.
  destruct (Nat.eqb q p); [|done]. destruct b.
  - unfold refreshed. change (sent_for i (request j (no_retry a) w) = sent_for i w).
    rewrite sent_for_request. by destruct (Nat.eqb_spec i j).
  - by rewrite refreshed_false.
Qed.

Lemma wakes_untouched_sent (p : nat) (b : bool) (l : list nat) (w : world)
    (i : nat) (t : task) :
  tasks w !! i = Some t → awaits_refresh t = false →
  sent_for i (foldl (wake p b) w l) = sent_for i w.
Proof.
  revert w. induction l as [|j l IH]; intros w Ht Hna; simpl; [done|].
  destruct (decide (i = j)) as [<-|Hne].
  - assert (wake p b w i = w) as ->; [|by apply IH].
    unfold wake. rewrite Ht. by destruct t.
  - destruct (wake_other p b w i j Hne) as [Hts _].
    rewrite IH by (by rewrite ?Hts). by apply wake_other_sent.
Qed.

Lemma wakes_target_sent (p : nat) (l : list nat) (w : world)
    (i : nat) (a : args) (k : after) :
  tasks w !! i = Some (Refreshing a k p) → i ∈ l →
  sent_for i (foldl (wake p true) w l)
  = sent_for i w ++ [ApiCall i (url_of a)
                       (mkInit (method (options a)) (body (options a))
                          (build_headers (no_retry a) w))].
Proof.
  revert w. induction l as [|j l IH]; intros w Ht Hin; simpl.
  { by apply elem_of_nil in Hin. }
  destruct (decide (i = j)) as [<-|Hne].
  - assert (wake p true w i = refreshed i a k true w) as ->.
    { unfold wake. by rewrite Ht, Nat.eqb_refl. }
    destruct (refreshed_same i a k true w _ Ht) as [Hts _].
    rewrite (wakes_untouched_sent p true l _ i _ Hts) by done.
    unfold refreshed.
    change (sent_for i (request i (no_retry a) w) = sent_for i w ++ [ApiCall i (url_of a)
              (mkInit (method (options a)) (body (options a))
                 (build_headers (no_retry a) w))]).
    by rewrite sent_for_request, Nat.eqb_refl.
  - apply elem_of_cons in Hin as [?|Hin]; [done|].
    destruct (wake_other p true w i j Hne) as [Hts _].
    rewrite IH by (by rewrite ?Hts).
    rewrite (wake_other_sent p true w i j Hne).
    by rewrite (build_headers_this (no_retry a) (wake p true w j) w)
      by apply wake_this.
Qed.


(** When the refresh settles, a task awaiting its promise observes the
    result: the call is sent once more, or it fails with the 401. *)
Lemma refresh_settled_target (w : world) (r : settled) (i : nat) (a : args)
    (k : after) (p : nat) :
  isRefreshing (this w) = true → refreshPromise (this w) = Some p →
  tasks w !! i = Some (Refreshing a k p) → i ∈ waiting w →
  let b := (refresh_try r w).2 in
  let w' := refresh_settled r w in
  tasks w' !! i
  = Some (if b then Fetching (no_retry a) k else Finished (Throws session_expired))
  ∧ calls_for i w' = (if b then S (calls_for i w) else calls_for i w)
  ∧ refresh_calls w' = refresh_calls w.
Proof.
  intros Hi Hp Ht Hin. unfold refresh_settled. rewrite Hi, Hp.
  pose proof (refresh_try_frame r w) as (Hs & Hts & Hw & _).
  destruct (refresh_try r w) as [w1 b]. simpl in *.
  destruct (wakes_target p b (waiting w1) (with_waiting [] (refresh_finally w1)) i a k)
    as [-> ->]; [simpl; by rewrite Hts|by rewrite Hw|].
  destruct (wakes_frame p b (waiting w1) (with_waiting [] (refresh_finally w1)))
    as (_ & _ & -> & _).
  unfold calls_for, refresh_calls. simpl. rewrite Hs. done.
Qed.



(** ** What the outer [catch] lets through *)

(** C10: whatever is thrown inside the [try] of [request] reaches the caller
    through the outer [catch].  When the [fetch] of a call settles and no
    refresh is called for, the exception [e] that the [try] block throws
    reaches the caller unchanged if its [status] is truthy, and as the
    status-0 network error otherwise; the exceptions with a truthy [status]
    are exactly the errors that [request] builds for a response that is not
    [ok], its status (not 0) being written into them.  The other error that
    [request] builds, the 401 "Session expired" of a refresh that returned
    [false], at once or after the refresh call, reaches the caller unchanged
    as well. *)
Theorem catch_all_rethrows (w : world) (i : nat) (a : args) (k : after)
    (r : settled) (e : exn) :
  tasks w !! i = Some (Fetching a k) →
  recovers a r = false →
  unrecovered r = Throws e →
  tasks (step w (FetchSettles i r)) !! i
  = Some (Finished (Throws (if truthy (status_of e) then e else network_error)))
  ∧ (truthy (status_of e) = true ↔
       ∃ status statusText payload,
         r = Response status statusText payload ∧ ok status = false ∧ status ≠ 0
         ∧ e = error_of status statusText payload)
  ∧ (∀ statusText payload,
       requiresAuth a = true → retryOnUnauthorized a = true →
       truthy (refreshToken (this w)) = false →
       tasks (step w (FetchSettles i (Response 401 statusText payload))) !! i
       = Some (Finished (Throws session_expired)))
  ∧ (∀ w0 p r0,
       isRefreshing (this w0) = true → refreshPromise (this w0) = Some p →
       tasks w0 !! i = Some (Refreshing a k p) → i ∈ waiting w0 →
       (refresh_try r0 w0).2 = false →
       tasks (step w0 (RefreshSettles r0)) !! i
       = Some (Finished (Throws session_expired)))
  ∧ truthy (status_of session_expired) = true.
Proof.
  intros Ht Hrec Hthrow. split; [|split; [|split; [|split; [|done]]]].
  - rewrite (step_fetch _ _ _ _ _ Ht), responded_unrecovered by done.
    rewrite Hthrow. by eapply finish_throws_task.
  - destruct r as [|status statusText payload]; simpl in Hthrow.
    { injection Hthrow as <-. split; [done|]. by intros (? & ? & ? & ? & _). }
    destruct (ok status) eqn:Hok.
    + assert (e = SyntaxError) as ->.
      { unfold result_of in Hthrow. destruct payload; simpl in Hthrow; congruence. }
      split; [done|]. intros (st & stx & pl & [= -> -> ->] & Hok' & _). congruence.
    + injection Hthrow as <-. rewrite status_of_error_of. simpl. split.
      * intros H. exists status, statusText, payload. repeat split; try done.
        apply negb_true_iff in H. lia.
      * intros (st & stx & pl & [= <- <- <-] & _ & Hne & _).
        apply negb_true_iff. lia.
  - intros statusText payload Hauth Hretry Hheld.
    rewrite (step_fetch _ _ _ _ _ Ht).
    pose proof (refreshAccessToken_cases w) as (_ & _ & _ & _ & _ & _ & Hcase).
    rewrite Hheld in Hcase.
    assert (Hw1 : responded i a k (Response 401 statusText payload) w
                  = refreshed i a k false w).
    { unfold responded. rewrite Hauth, Hretry. cbn [Z.eqb Pos.eqb andb].
      by rewrite Hcase. }
    rewrite Hw1. by destruct (refreshed_same i a k false w _ Ht) as [-> _].
  - intros w0 p r0 Hi Hp Ht0 Hin Hb.
    destruct (refresh_settled_target w0 r0 i a k p Hi Hp Ht0 Hin) as (H & _).
    rewrite Hb in H. exact H.
Qed.

Lemma catch_all_rethrows_witness :
  let w := run (construct ∅) [CallRequest (get "/api/v1/trips/active")] in
  tasks (step w (FetchSettles 0 Rejected)) !! 0%nat
  = Some (Finished (Throws network_error))
  ∧ tasks (step w (FetchSettles 0 (Response 404 "Not Found" Empty))) !! 0%nat
    = Some (Finished (Throws (Thrown [("status", JNum 404); ("message", JStr "Not Found")]))).
Proof.
  intros w. split.
  - exact (proj1 (catch_all_rethrows w 0%nat (get "/api/v1/trips/active") HandBack
                    Rejected TypeError eq_refl eq_refl eq_refl)).
  - exact (proj1 (catch_all_rethrows w 0%nat (get "/api/v1/trips/active") HandBack
                    (Response 404 "Not Found" Empty) (error_of 404 "Not Found" Empty)
                    eq_refl eq_refl eq_refl)).
Defined.

(** ** A call that requires no authorization *)

(** C8: a call with [requiresAuth = false], made in any state that a client
    can reach.  What is handed to [fetch] for it carries the caller's headers
    and the JSON content type only: no [Authorization] header is added,
    whatever credential is held.  Whatever happens while it is pending, when
    its [fetch] settles the call finishes at once with the outcome of the
    response itself: whatever the status, 401 included, no refresh is started
    or joined, nothing is sent, and the refresh marker is left as it was.
    Over its whole life that one call of [fetch] is the only one made for it. *)
Theorem request_without_auth (storage : gmap string text) (es0 : list event)
    (a : args) (k : after) (es es' : list event) (r : settled) :
  requiresAuth a = false →
  let w0 := run (construct storage) es0 in
  let i := length (tasks w0) in
  Forall (λ e, ∀ x, e ≠ FetchSettles i x) es →
  let w := run (spawn a k w0) es in
  let w' := step w (FetchSettles i r) in
  let hs := headers (options a) ∪ {["Content-Type" := Literal "application/json"]} in
  let handed := ApiCall i (url_of a) (mkInit (method (options a)) (body (options a)) hs) in
  sent (spawn a k w0) = sent w0 ++ [handed]
  ∧ hs !! "Authorization" = headers (options a) !! "Authorization"
  ∧ tasks w !! i = Some (Fetching a k)
  ∧ build_headers a w = hs
  ∧ w' = finish i k (caught (unrecovered r)) w
  ∧ sent w' = sent w
  ∧ refresh_calls w' = refresh_calls w
  ∧ waiting w' = waiting w
  ∧ isRefreshing (this w') = isRefreshing (this w)
  ∧ refreshPromise (this w') = refreshPromise (this w)
  ∧ (∃ res, tasks w' !! i = Some (Finished res))
  ∧ sent_for i (run w' es') = [handed].
Proof.
  intros Hauth w0 i Hes w w' hs handed.
  assert (Hb : ∀ x, build_headers a x = hs).
  { intros x. unfold build_headers. by rewrite Hauth. }
  assert (Hsp : sent (spawn a k w0) = sent w0 ++ [handed]).
  { unfold spawn, request. simpl. by rewrite Hb. }
  assert (Ht0 : tasks (spawn a k w0) !! i = Some (Fetching a k)).
  { unfold spawn. simpl. rewrite lookup_app_r by done. by rewrite Nat.sub_diag. }
  destruct (run_untargeted _ es i _ Ht0) as [Ht Hc].
  { eapply Forall_impl; [exact Hes|]. intros e He.
    destruct e; simpl; try (intros H; exact H). intros <-. by eapply He. }
  fold w in Ht, Hc.
  assert (Hw : w' = finish i k (caught (unrecovered r)) w).
  { subst w'. rewrite (step_fetch _ _ _ _ _ Ht). apply responded_unrecovered.
    destruct r; simpl; [done|]. rewrite Hauth. by rewrite andb_false_r. }
  destruct (finish_frame i k (caught (unrecovered r)) w) as (Hs & Hwt & _ & Hir & Hrp & _).
  destruct (finish_finished i k (caught (unrecovered r)) w) as [res Hres];
    [by eapply task_in_range|].
  split; [exact Hsp|]. split.
  { unfold hs. rewrite lookup_union_l; [done|]. by rewrite lookup_singleton_ne. }
  split; [exact Ht|]. split; [apply Hb|]. split; [exact Hw|]. rewrite Hw.
  split; [exact Hs|]. split; [unfold refresh_calls; by rewrite Hs|].
  split; [exact Hwt|]. split; [exact Hir|]. split; [exact Hrp|].
  split; [eauto|].
  destruct (run_untargeted _ es' i _ Hres) as [_ Hc'].
  { apply Forall_forall. intros e _ H. exact H. }
  rewrite (sent_for_run i _ es' Hc').
  assert (sent_for i (finish i k (caught (unrecovered r)) w) = sent_for i w) as ->.
  { unfold sent_for. by rewrite Hs. }
  unfold w. rewrite (sent_for_run i _ es Hc).
  unfold sent_for. rewrite Hsp, filter_app.
  assert (filter (is_for i) (sent w0) = []) as ->.
  { apply (sent_for_none i w0).
    pose proof (run_accounted storage es0 i) as Hacc. fold w0 in Hacc.
    by rewrite (lookup_ge_None_2 (tasks w0) i) in Hacc. }
  unfold filter, handed. simpl. by rewrite Nat.eqb_refl.
Qed.

Lemma request_without_auth_witness :
  let w0 := construct {[KEY := Doc a1_r1]} in
  let w := login "ada@example.org" "secret12" w0 in
  let w' := step w (FetchSettles 0 (Response 401 "Unauthorized" Empty)) in
  isAuthenticated w0 = true
  ∧ sent w
    = [ApiCall 0
         (BASE_URL +:+ "/api/v1/auth/login?email=ada%40example.org&password=secret12")
         (mkInit (Some "POST") None {["Content-Type" := Literal "application/json"]})]
  ∧ sent w' = sent w
  ∧ tasks w' !! 0%nat
    = Some (Finished (Throws (Thrown [("status", JNum 401); ("message", JStr "Unauthorized")]))).
Proof.
  intros w0 w w'.
  pose proof (request_without_auth {[KEY := Doc a1_r1]} []
                (login_args "ada@example.org" "secret12") StoreTokens [] []
                (Response 401 "Unauthorized" Empty) eq_refl (Forall_nil_2 _))
    as (Hsp & _ & _ & _ & Hw & Hs & _).
  split; [reflexivity|]. split; [|split].
  - etransitivity; [exact Hsp|]. vm_compute. reflexivity.
  - exact Hs.
  - etransitivity; [exact (f_equal (λ x, tasks x !! 0%nat) Hw)|]. vm_compute. reflexivity.
Defined.

(** ** Single flight *)

(** A task found awaiting the refresh promise after an event that settles no
    refresh was already awaiting it, or has just come to await the refresh in
    flight. *)
Lemma step_new_waiter (w : world) (e : event) (i : nat) (a : args) (k : after) (p : nat) :
  settles_refresh e = false →
  tasks (step w e) !! i = Some (Refreshing a k p) →
  tasks w !! i = Some (Refreshing a k p)
  ∨ (isRefreshing (this (step w e)) = true
     ∧ refreshPromise (this (step w e)) = Some p
     ∧ i ∈ waiting (step w e)).
Proof.
  intros He.
  assert (Hspawn : ∀ a0 k0, tasks (spawn a0 k0 w) !! i = Some (Refreshing a k p) →
                            tasks w !! i = Some (Refreshing a k p)).
  { intros a0 k0. unfold spawn. simpl. intros H.
    apply lookup_app_Some in H as [H|[_ H]]; [done|].
    by destruct (i - length (tasks w))%nat as [|[|n]]. }
  destruct e as [a0|em pw|n em ph pw|tokens| | |j r|r]; simpl in *;
    try discriminate; try (intros H; left; by eapply Hspawn); try (by left).
  - destruct (setTokens tokens w) as [w'|e] eqn:E; [|eauto].
    apply setTokens_frame in E as (_ & -> & _). eauto.
  - destruct (tasks w !! j) as [[a0 k0|a0 k0 q|res]|] eqn:Hj; eauto.
    destruct (decide (i = j)) as [<-|Hne].
    2:{ destruct (responded_other i j a0 k0 r w Hne) as [-> _]. eauto. }
    pose proof (task_in_range _ _ _ Hj) as Hi.
    destruct (recovers a0 r) eqn:Hrec.
    + destruct r as [|status statusText payload]; [done|].
      unfold responded. simpl in Hrec. rewrite Hrec.
      pose proof (refreshAccessToken_cases w) as (Hts & Hw & _ & _ & _ & _ & Hcase).
      destruct (refreshAccessToken w) as [w' [b|q]] eqn:E.
      * destruct (refreshed_same i a0 k0 b w' (Fetching a0 k0)) as [-> _];
          [simpl in Hts; by rewrite Hts|]. by destruct b.
      * simpl in *. rewrite list_lookup_insert_eq by (by rewrite Hts).
        intros [= <- <- <-]. right.
        split; [|split; [|apply elem_of_app; right; by apply list_elem_of_singleton]].
        -- destruct (truthy (refreshToken (this w))); [|congruence].
           destruct (isRefreshing (this w)) eqn:Hir; [|by destruct Hcase as (_ & ? & _)].
           destruct (refreshPromise (this w)); [congruence|by destruct Hcase as (_ & ? & _)].
        -- destruct (truthy (refreshToken (this w))); [|congruence].
           destruct (isRefreshing (this w)) eqn:Hir;
             [destruct (refreshPromise (this w)) eqn:Hrp|].
           ++ congruence.
           ++ destruct Hcase as (Hl & _ & -> & _). congruence.
           ++ destruct Hcase as (Hl & _ & -> & _). congruence.
    + rewrite responded_unrecovered by done.
      destruct (finish_finished i k0 (caught (unrecovered r)) w Hi) as [res ->]. done.
Qed.

(** With no refresh in flight, an event starts at most one. *)
Lemma step_idle (w : world) (e : event) :
  isRefreshing (this w) = false → settles_refresh e = false →
  (isRefreshing (this (step w e)) = false ∧ refresh_calls (step w e) = refresh_calls w)
  ∨ (∃ p, isRefreshing (this (step w e)) = true
          ∧ refreshPromise (this (step w e)) = Some p
          ∧ refresh_calls (step w e) = S (refresh_calls w)).
Proof.
  intros Hi He.
  destruct e as [a0|em pw|n em ph pw|tokens| | |j r|r]; simpl; try done;
    try (left; split; [done|];
         unfold refresh_calls, spawn, request; simpl; apply refresh_calls_snoc_api);
    try (left; done).
  - destruct (setTokens tokens w) as [w'|e] eqn:E; [|by left].
    apply setTokens_frame in E as (Hs & _ & _ & _ & -> & _).
    left. unfold refresh_calls. by rewrite Hs.
  - destruct (tasks w !! j) as [[a0 k0|a0 k0 q|res]|] eqn:Hj; try by left.
    destruct (recovers a0 r) eqn:Hrec.
    + destruct r as [|status statusText payload]; [done|].
      unfold responded. simpl in Hrec. rewrite Hrec.
      pose proof (refreshAccessToken_cases w) as (_ & _ & _ & _ & _ & _ & Hcase).
      rewrite Hi in Hcase.
      destruct (truthy (refreshToken (this w))).
      * destruct Hcase as (Hl & Hir & Hrp & Hrc).
        destruct (refreshAccessToken w) as [w' aw]. simpl in *. subst aw.
        right. exists (promises w). done.
      * rewrite Hcase. left.
        by destruct (refreshed_frame j a0 k0 false w) as (_ & _ & -> & -> & _).
    + rewrite responded_unrecovered by done. left.
      destruct (finish_frame j k0 (caught (unrecovered r)) w) as (_ & _ & _ & -> & _).
      by rewrite refresh_calls_finish.
Qed.

Lemma step_gathering (c : nat) (w : world) (e : event) :
  gathering c w → settles_refresh e = false → gathering c (step w e).
Proof.
  intros [(Hi & Hc & Hnone)|(p & Hi & Hp & Hc & Hall)] He.
  - destruct (step_idle w e Hi He) as [[Hi' Hc']|(p & Hi' & Hp' & Hc')].
    + left. split; [done|]. split; [congruence|].
      intros i [a k|a k q|res] Ht; try done.
      destruct (step_new_waiter w e i a k q He Ht) as [Hold|(Hir & _)].
      * by apply Hnone in Hold.
      * congruence.
    + right. exists p. split; [done|]. split; [done|]. split; [congruence|].
      intros i a k q Ht.
      destruct (step_new_waiter w e i a k q He Ht) as [Hold|(_ & Hrp & Hin)].
      * by apply Hnone in Hold.
      * split; [congruence|done].
  - destruct (step_in_flight w e p Hi Hp He) as (Hi' & Hp' & Hc' & Hw).
    right. exists p. split; [done|]. split; [done|]. split; [congruence|].
    intros i a k q Ht.
    destruct (step_new_waiter w e i a k q He Ht) as [Hold|(_ & Hrp & Hin)].
    + destruct (Hall _ _ _ _ Hold) as [-> Hin]. auto.
    + split; [congruence|done].
Qed.

Lemma run_gathering (c : nat) (w : world) (es : list event) :
  gathering c w → Forall (λ e, settles_refresh e = false) es → gathering c (run w es).
Proof.
  intros Hw Hes. revert w Hw. unfold run.
  induction Hes as [|e es He Hes IH]; intros w Hw; simpl; [done|].
  apply IH. by apply step_gathering.
Qed.

Lemma refresh_settled_calls (r : settled) (w : world) :
  refresh_calls (refresh_settled r w) = refresh_calls w.
Proof.
  unfold refresh_settled.
  destruct (isRefreshing (this w)); [|done].
  destruct (refreshPromise (this w)) as [p|]; [|done].
  pose proof (refresh_try_frame r w) as (Hs & _).
  destruct (refresh_try r w) as [w1 b]. simpl in *.
  destruct (wakes_frame p b (waiting w1) (with_waiting [] (refresh_finally w1)))
    as (_ & _ & -> & _).
  unfold refresh_calls. simpl. by rewrite Hs.
Qed.

(** A task still awaiting after the promise [p] has settled was not on [p],
    or not in the queue. *)
Lemma wake_remaining (p : nat) (b : bool) (w : world) (j i : nat)
    (a : args) (k : after) (q : nat) :
  tasks (wake p b w j) !! i = Some (Refreshing a k q) →
  tasks w !! i = Some (Refreshing a k q) ∧ (q ≠ p ∨ i ≠ j).
Proof.
  destruct (decide (i = j)) as [<-|Hne].
  - unfold wake. destruct (tasks w !! i) as [[a0 k0|a0 k0 q0|res]|] eqn:Hi;
      try (intros H; rewrite Hi in H; discriminate).
    destruct (Nat.eqb_spec q0 p) as [->|Hq].
    + destruct (refreshed_same i a0 k0 b w _ Hi) as [-> _]. by destruct b.
    + rewrite Hi. intros [= <- <- <-]. auto.
  - destruct (wake_other p b w i j Hne) as [-> _]. auto.
Qed.

Lemma wakes_remaining (p : nat) (b : bool) (l : list nat) (w : world) (i : nat)
    (a : args) (k : after) (q : nat) :
  tasks (foldl (wake p b) w l) !! i = Some (Refreshing a k q) →
  tasks w !! i = Some (Refreshing a k q) ∧ (q ≠ p ∨ i ∉ l).
Proof.
  revert w. induction l as [|j l IH]; intros w; simpl.
  - intros H. split; [done|]. right. apply not_elem_of_nil.
  - intros H. apply IH in H as [H Hl]. apply wake_remaining in H as [H Hj].
    split; [done|]. destruct Hl as [?|Hl]; [by left|].
    destruct Hj as [?|Hj]; [by left|]. right. rewrite not_elem_of_cons. done.
Qed.

(** When the refresh settles nobody is left waiting. *)
Lemma refresh_settled_gathering (c : nat) (r : settled) (w : world) :
  gathering c w → ∃ c', gathering c' (refresh_settled r w).
Proof.
  intros [(Hi & Hc & Hnone)|(p & Hi & Hp & Hc & Hall)].
  - exists c. left. unfold refresh_settled. by rewrite Hi.
  - exists (refresh_calls (refresh_settled r w)). left.
    destruct (refresh_settled_this r w p Hi Hp) as [Hthis _].
    split; [by rewrite Hthis|]. split; [done|].
    intros i [a k|a k q|res] Ht; try done. exfalso.
    unfold refresh_settled in Ht. rewrite Hi, Hp in Ht.
    pose proof (refresh_try_frame r w) as (_ & Hts & Hw & _).
    destruct (refresh_try r w) as [w1 b]. simpl in *.
    apply wakes_remaining in Ht as [Ht Hor]. simpl in Ht. rewrite Hts in Ht.
    destruct (Hall _ _ _ _ Ht) as [-> Hin]. rewrite Hw in Hor.
    by destruct Hor.
Qed.

(** In every state that a client can reach: no refresh in flight and nobody
    waiting, or one refresh in flight and every waiting task on its promise. *)
Lemma reachable_gathering (storage : gmap string text) (es : list event) :
  ∃ c, gathering c (run (construct storage) es).
Proof.
  assert (Hc : ∃ c, gathering c (construct storage)).
  { exists 0%nat. left. unfold construct, loadTokens, fresh, clearTokens. simpl.
    destruct (storage !! KEY) as [t|]; [|done].
    destruct (nonempty t); [|done].
    destruct (JSON_parse t) as [v|]; [|done].
    destruct (prop "accessToken" v); [|done].
    by destruct (prop "refreshToken" v). }
  revert Hc. generalize (construct storage) as w. unfold run.
  induction es as [|e es IH]; intros w [c Hw]; simpl; [eauto|].
  apply IH. destruct (settles_refresh e) eqn:He.
  - destruct e; try discriminate. by eapply refresh_settled_gathering.
  - exists c. by apply step_gathering.
Qed.

(** C1, as amended: single-flight refresh.  Take any stretch of execution
    that starts, in a state the client can reach from its construction, with
    no refresh in flight, and in which no refresh settles; calls, answers,
    logins and logouts may interleave in it in any order.  At most one
    refresh call is made in it.  Every call answered 401 in it while a
    refresh credential is held comes to await the refresh; every task that
    awaits is on the promise of the one refresh in flight, and exactly one
    refresh call has been made.  A caller of
    [refreshAccessToken] arriving then gets that same promise, and the world
    is unchanged, provided a refresh credential is still held; if the
    credentials were cleared meanwhile it gets [false] at once.  When the
    refresh settles, no further refresh call is made and every waiting task
    observes its result: sent once more, or failed with the 401. *)
Theorem single_flight (storage : gmap string text) (es0 es : list event) (r : settled) :
  let w := run (construct storage) es0 in
  isRefreshing (this w) = false →
  Forall (λ e, settles_refresh e = false) es →
  let w1 := run w es in
  let w2 := step w1 (RefreshSettles r) in
  (refresh_calls w1 ≤ S (refresh_calls w))%nat
  ∧ refresh_calls w2 = refresh_calls w1
  ∧ (∀ es1 es2 i a k statusText payload,
       es = (es1 ++ FetchSettles i (Response 401 statusText payload) :: es2)%list →
       tasks (run w es1) !! i = Some (Fetching a k) →
       requiresAuth a = true → retryOnUnauthorized a = true →
       truthy (refreshToken (this (run w es1))) = true →
       ∃ p, tasks w1 !! i = Some (Refreshing a k p))
  ∧ (∀ i a k p, tasks w1 !! i = Some (Refreshing a k p) →
       refresh_calls w1 = S (refresh_calls w)
       ∧ isRefreshing (this w1) = true ∧ refreshPromise (this w1) = Some p
       ∧ refreshAccessToken w1
         = (w1, if truthy (refreshToken (this w1)) then Later p else Now false)
       ∧ tasks w2 !! i
         = Some (if (refresh_try r w1).2 then Fetching (no_retry a) k
                 else Finished (Throws session_expired))).
Proof.
  intros w Hi Hes. cbv zeta.
  assert (Hg : gathering (refresh_calls w) (run w es)).
  { apply run_gathering; [|done]. left.
    destruct (reachable_gathering storage es0) as [c [(_ & _ & Hnone)|(p & Hi' & _)]].
    - done.
    - fold w in Hi'. congruence. }
  split; [|split; [|split]].
  - destruct Hg as [(_ & -> & _)|(p & _ & _ & -> & _)]; lia.
  - apply refresh_settled_calls.
  - intros es1 es2 i a k statusText payload -> Ht Hauth Hretry Hheld.
    apply Forall_app in Hes as [_ Hes2]. apply Forall_cons in Hes2 as [_ Hes2].
    rewrite run_app, run_cons, (step_fetch _ _ _ _ _ Ht).
    destruct (responded_401 i a k statusText payload _ Hauth Hretry Ht Hheld)
      as (p & Ht1 & _).
    exists p. eapply (run_untargeted _ es2 i _ Ht1).
    eapply Forall_impl; [exact Hes2|]. intros e He.
    destruct e; simpl in *; first [discriminate|intros H; exact H].
  - intros i a k p Ht.
    destruct Hg as [(_ & _ & Hnone')|(q & Hi1 & Hp1 & Hc1 & Hall)].
    { by apply Hnone' in Ht. }
    destruct (Hall _ _ _ _ Ht) as [-> Hin].
    split; [done|]. split; [done|]. split; [done|]. split.
    + unfold refreshAccessToken. rewrite Hi1, Hp1.
      by destruct (truthy (refreshToken (this (run w es)))).
    + destruct (refresh_settled_target _ r i a k q Hi1 Hp1 Ht Hin) as (Ht2 & _).
      exact Ht2.
Qed.

Lemma single_flight_witness :
  let es0 := [CallRequest (get "/api/v1/users/me");
              CallRequest (get "/api/v1/trips/active");
              CallRequest (get "/api/v1/saved-locations")] in
  let w := run (construct {[KEY := Doc a1_r1]}) es0 in
  let unauthorized := Response 401 "Unauthorized" Empty in
  let es := [FetchSettles 1 unauthorized; FetchSettles 0 unauthorized;
             CallRequest (get "/api/v1/trusted-contacts");
             FetchSettles 2 unauthorized] in
  let w2 := step (run w es) (RefreshSettles (Response 200 "OK" (Doc a2_r2))) in
  refresh_calls (run w es) = S (refresh_calls w)
  ∧ refresh_calls w2 = refresh_calls (run w es)
  ∧ tasks w2 !! 0%nat = Some (Fetching (no_retry (get "/api/v1/users/me")) HandBack)
  ∧ tasks w2 !! 1%nat = Some (Fetching (no_retry (get "/api/v1/trips/active")) HandBack)
  ∧ tasks w2 !! 2%nat = Some (Fetching (no_retry (get "/api/v1/saved-locations")) HandBack).
Proof.
  intros es0 w unauthorized es w2.
  pose proof (single_flight {[KEY := Doc a1_r1]} es0 es (Response 200 "OK" (Doc a2_r2))
                eq_refl ltac:(by repeat constructor)) as (_ & H2 & H3 & H4).
  assert (Hb : (refresh_try (Response 200 "OK" (Doc a2_r2)) (run w es)).2 = true)
    by (vm_compute; reflexivity).
  fold w in H2, H3, H4. rewrite Hb in H4.
  (* the 401 of the task 0 comes second in [es] *)
  destruct (H3 [FetchSettles 1 unauthorized]
               [CallRequest (get "/api/v1/trusted-contacts"); FetchSettles 2 unauthorized]
               0%nat (get "/api/v1/users/me") HandBack "Unauthorized" Empty)
    as [p0 H0]; [reflexivity|by vm_compute|reflexivity|reflexivity|by vm_compute|].
  assert (H1 : tasks (run w es) !! 1%nat
               = Some (Refreshing (get "/api/v1/trips/active") HandBack 0))
    by (vm_compute; reflexivity).
  assert (H2' : tasks (run w es) !! 2%nat
               = Some (Refreshing (get "/api/v1/saved-locations") HandBack 0))
    by (vm_compute; reflexivity).
  destruct (H4 _ _ _ _ H0) as (Hc & _ & _ & _ & Ht0).
  destruct (H4 _ _ _ _ H1) as (_ & _ & _ & _ & Ht1).
  destruct (H4 _ _ _ _ H2') as (_ & _ & _ & _ & Ht2).
  split; [exact Hc|]. split; [exact H2|].
  split; [exact Ht0|]. split; [exact Ht1|exact Ht2].
Defined.

(** C1, the claim as stated fails: two requests are pending at once and each
    is answered 401 while a refresh credential is held, but the refresh that
    the first 401 started has completed when the second 401 arrives, so a
    second refresh call is made. *)
Lemma two_refresh_calls :
  let unauthorized := Response 401 "Unauthorized" Empty in
  let w := run (construct {[KEY := Doc a1_r1]})
             [CallRequest (get "/api/v1/users/me");
              CallRequest (get "/api/v1/trips/active");
              FetchSettles 0 unauthorized;
              RefreshSettles (Response 200 "OK" (Doc a2_r2))] in
  let w' := step w (FetchSettles 1 unauthorized) in
  tasks w !! 1%nat = Some (Fetching (get "/api/v1/trips/active") HandBack)
  ∧ refreshToken (this w) = Some (JStr "r2")
  ∧ refresh_calls w = 1%nat
  ∧ refresh_calls w' = 2%nat
  ∧ filter is_refresh (sent w')
    = [RefreshCall 0 (Some (JStr "r1")); RefreshCall 1 (Some (JStr "r2"))].
Proof. vm_compute. done. Qed.

(** Likewise a caller that arrives while the refresh is in flight, but after
    a logout, does not get the pending outcome: it gets [false] at once and
    fails, while the refresh goes on to succeed. *)
Lemma joined_after_logout :
  let unauthorized := Response 401 "Unauthorized" Empty in
  let w := run (construct {[KEY := Doc a1_r1]})
             [CallRequest (get "/api/v1/users/me");
              CallRequest (get "/api/v1/trips/active");
              FetchSettles 0 unauthorized;
              CallLogout;
              FetchSettles 1 unauthorized;
              RefreshSettles (Response 200 "OK" (Doc a2_r2))] in
  tasks w !! 1%nat = Some (Finished (Throws session_expired))
  ∧ tasks w !! 0%nat = Some (Fetching (no_retry (get "/api/v1/users/me")) HandBack)
  ∧ refresh_calls w = 1%nat
  ∧ accessToken (this w) = Some (JStr "a2").
Proof. vm_compute. done. Qed.

(** * Further properties of the client *)

(** ** What a successful call returns *)

(** X1: a 2xx response to a plain call of [request] gives the caller the empty
    object when the body is empty, and the parsed value when the body is
    JSON; the body of a 2xx response is never read as an error. *)
Theorem success_result (w : world) (i : nat) (a : args)
    (status : Z) (statusText : string) (v : json) :
  tasks w !! i = Some (Fetching a HandBack) → ok status = true →
  tasks (step w (FetchSettles i (Response status statusText Empty))) !! i
  = Some (Finished (Returns (JObj [])))
  ∧ tasks (step w (FetchSettles i (Response status statusText (Doc v)))) !! i
    = Some (Finished (Returns v)).
Proof.
  intros Ht Hok. pose proof (task_in_range _ _ _ Ht) as Hi.
  split; rewrite (step_fetch _ _ _ _ _ Ht), responded_unrecovered
    by (simpl; by rewrite (ok_not_401 _ Hok));
    simpl; rewrite Hok; simpl; by rewrite list_lookup_insert_eq.
Qed.

Lemma success_result_witness :
  let w := run (construct {[KEY := Doc a1_r1]}) [CallRequest (get "/api/v1/trips/active")] in
  tasks (step w (FetchSettles 0 (Response 204 "No Content" Empty))) !! 0%nat
  = Some (Finished (Returns (JObj []))).
Proof.
  intros w.
  exact (proj1 (success_result w 0%nat (get "/api/v1/trips/active") 204 "No Content"
                  JNull eq_refl eq_refl)).
Defined.

(** ** The headers of a call *)



(** ** Who writes the credentials *)

(** X3: the answer to a plain call of [request] never changes the
    credentials or the stored record, whatever the answer is: a 401 at most
    starts or joins a refresh, and only the end of that refresh writes. *)
Theorem request_keeps_credentials (w : world) (i : nat) (a : args) (r : settled) :
  tasks w !! i = Some (Fetching a HandBack) →
  let w' := step w (FetchSettles i r) in
  accessToken (this w') = accessToken (this w)
  ∧ refreshToken (this w') = refreshToken (this w)
  ∧ localStorage w' = localStorage w.
Proof.
  intros Ht. cbv zeta. rewrite (step_fetch _ _ _ _ _ Ht).
  destruct (recovers a r) eqn:Hrec.
  - destruct r as [|status statusText payload]; [done|].
    unfold responded. simpl in Hrec. rewrite Hrec.
    pose proof (refreshAccessToken_cases w) as (_ & _ & Ha & Hr & Hs & _).
    destruct (refreshAccessToken w) as [w1 [b|p]]; simpl in *.
    + destruct (refreshed_this i a HandBack b w1) as [-> ->]. done.
    + done.
  - rewrite responded_unrecovered by done. done.
Qed.

Lemma request_keeps_credentials_witness :
  let w := run (construct {[KEY := Doc a1_r1]}) [CallRequest (get "/api/v1/trips/active")] in
  let w' := step w (FetchSettles 0 (Response 401 "Unauthorized" Empty)) in
  accessToken (this w') = accessToken (this w)
  ∧ refreshToken (this w') = refreshToken (this w)
  ∧ localStorage w' = localStorage w.
Proof.
  intros w w'.
  exact (request_keeps_credentials w 0%nat (get "/api/v1/trips/active")
           (Response 401 "Unauthorized" Empty) eq_refl).
Defined.

(** ** Login and registration *)

(** X4: when [login] or [register] is answered 2xx with a JSON body other
    than [null], the body is returned to the caller and stored as it is; a
    client built afterwards over the same storage holds the same credentials
    (the session survives a reload). *)
Theorem login_stores (w : world) (i : nat) (a : args)
    (status : Z) (statusText : string) (tokens : json) :
  tasks w !! i = Some (Fetching a StoreTokens) → requiresAuth a = false →
  ok status = true → tokens ≠ JNull →
  let w' := step w (FetchSettles i (Response status statusText (Doc tokens))) in
  tasks w' !! i = Some (Finished (Returns tokens))
  ∧ prop "accessToken" tokens = Returns (accessToken (this w'))
  ∧ prop "refreshToken" tokens = Returns (refreshToken (this w'))
  ∧ localStorage w' !! KEY = Some (Doc tokens)
  ∧ accessToken (this (construct (localStorage w'))) = accessToken (this w')
  ∧ refreshToken (this (construct (localStorage w'))) = refreshToken (this w').
Proof.
  intros Ht Hauth Hok Hnn. cbv zeta.
  pose proof (task_in_range _ _ _ Ht) as Hi.
  rewrite (step_fetch _ _ _ _ _ Ht), responded_unrecovered
    by (simpl; by rewrite Hauth, andb_false_r).
  simpl. rewrite Hok. simpl.
  destruct (setTokens_returns tokens w Hnn) as [w1 E]. rewrite E.
  destruct (setTokens_frame _ _ _ E) as (_ & Hts & _).
  destruct (setTokens_stores _ _ _ E) as (Ha & Hr & Hs).
  destruct (load_after_save _ _ _ E) as (Ha' & Hr' & _).
  simpl. rewrite list_lookup_insert_eq by (by rewrite Hts).
  rewrite Hs, lookup_insert_eq. rewrite <- Hs. done.
Qed.

Lemma login_stores_witness :
  let w := run (construct ∅) [CallLogin "ada@example.org" "secret12"] in
  let w' := step w (FetchSettles 0 (Response 200 "OK" (Doc a1_r1))) in
  tasks w' !! 0%nat = Some (Finished (Returns a1_r1))
  ∧ localStorage w' !! KEY = Some (Doc a1_r1).
Proof.
  intros w w'.
  destruct (login_stores w 0%nat (login_args "ada@example.org" "secret12") 200 "OK" a1_r1)
    as (H1 & _ & _ & H4 & _); [reflexivity|reflexivity|reflexivity|discriminate|].
  split; [exact H1|exact H4].
Defined.

(** X5: when [login] or [register] fails (the [fetch] is rejected, or the
    response is not 2xx, or its body does not parse) the credentials and the
    stored record stay as they were and the caller gets the normalised error.
    When the response is 2xx with the body [null], [setTokens] throws after
    [request] has returned: the caller gets a bare [TypeError], which carries
    no status, and again nothing is stored. *)
Theorem login_failure (w : world) (i : nat) (a : args) (r : settled) :
  tasks w !! i = Some (Fetching a StoreTokens) → requiresAuth a = false →
  (∀ v, caught (unrecovered r) = Returns v → v = JNull) →
  let w' := step w (FetchSettles i r) in
  this w' = this w ∧ localStorage w' = localStorage w
  ∧ tasks w' !! i
    = Some (Finished (Throws match caught (unrecovered r) with
                             | Throws e => e
                             | Returns _ => TypeError
                             end)).
Proof.
  intros Ht Hauth Hres. cbv zeta.
  pose proof (task_in_range _ _ _ Ht) as Hi.
  rewrite (step_fetch _ _ _ _ _ Ht), responded_unrecovered.
  2:{ destruct r; [done|]. simpl. by rewrite Hauth, andb_false_r. }
  destruct (caught (unrecovered r)) as [v|e] eqn:E; simpl.
  - rewrite (Hres v eq_refl). simpl. by rewrite list_lookup_insert_eq.
  - by rewrite list_lookup_insert_eq.
Qed.

Lemma login_failure_witness :
  let w := run (construct {[KEY := Doc a1_r1]}) [CallLogin "ada@example.org" "wrong"] in
  let w1 := step w (FetchSettles 0 (Response 401 "Unauthorized" Empty)) in
  let w2 := step w (FetchSettles 0 (Response 200 "OK" (Doc JNull))) in
  this w1 = this w
  ∧ tasks w1 !! 0%nat
    = Some (Finished (Throws (Thrown [("status", JNum 401); ("message", JStr "Unauthorized")])))
  ∧ tasks w2 !! 0%nat = Some (Finished (Throws TypeError)).
Proof.
  intros w w1 w2.
  destruct (login_failure w 0%nat (login_args "ada@example.org" "wrong")
              (Response 401 "Unauthorized" Empty)) as (H1 & _ & H3);
    [reflexivity|reflexivity|intros v; discriminate|].
  destruct (login_failure w 0%nat (login_args "ada@example.org" "wrong")
              (Response 200 "OK" (Doc JNull))) as (_ & _ & H3');
    [reflexivity|reflexivity|by intros v [= <-]|].
  split; [exact H1|]. split; [exact H3|exact H3'].
Defined.

(** ** After a logout *)

Lemma clearTokens_cleared (w : world) :
  accessToken (this (clearTokens w)) = null
  ∧ refreshToken (this (clearTokens w)) = null
  ∧ localStorage (clearTokens w) !! KEY = None.
Proof. unfold clearTokens. simpl. repeat split. apply lookup_delete_eq. Qed.

(** With no refresh credential held, the answer to a plain call ends it. *)
Lemma responded_signed_out (j : nat) (a : args) (r : settled) (w : world) :
  refreshToken (this w) = null →
  ∃ res, responded j a HandBack r w = set_task j (Finished res) w.
Proof.
  intros Hr. destruct (recovers a r) eqn:Hrec.
  - destruct r as [|status statusText payload]; [done|].
    unfold responded. simpl in Hrec. rewrite Hrec.
    pose proof (refreshAccessToken_cases w) as (_ & _ & _ & _ & _ & _ & Hcase).
    rewrite Hr in Hcase. simpl in Hcase. rewrite Hcase, refreshed_false. eauto.
  - rewrite responded_unrecovered by done. unfold finish. eauto.
Qed.

(** Signed out, the client stays so while nothing stores a credential. *)
Lemma step_signed_out (w : world) (e : event) :
  signed_out w → quiet e = true →
  signed_out (step w e)
  ∧ refresh_calls (step w e) = refresh_calls w
  ∧ isRefreshing (this (step w e)) = isRefreshing (this w).
Proof.
  intros (Ha & Hr & Hk & Hts) Hq.
  destruct e as [a|em pw|n em ph pw|tokens| | |j r|r]; try discriminate; simpl.
  - unfold spawn, signed_out. simpl. repeat split; try done.
    + apply Forall_app. split; [done|]. by constructor.
    + unfold refresh_calls. simpl. apply refresh_calls_snoc_api.
  - unfold logout, signed_out. destruct (clearTokens_cleared w) as (-> & -> & ->). done.
  - unfold logout, signed_out. destruct (clearTokens_cleared w) as (-> & -> & ->). done.
  - destruct (tasks w !! j) as [[a k|a k q|res]|] eqn:Hj; try done.
    assert (k = HandBack) as ->.
    { pose proof (Forall_lookup_1 _ _ _ _ Hts Hj) as H. by destruct k. }
    destruct (responded_signed_out j a r w Hr) as [res ->].
    unfold signed_out. simpl. repeat split; try done.
    apply Forall_insert; done.
Qed.

Lemma run_signed_out (w : world) (es : list event) :
  signed_out w → Forall (λ e, quiet e = true) es →
  signed_out (run w es)
  ∧ refresh_calls (run w es) = refresh_calls w
  ∧ isRefreshing (this (run w es)) = isRefreshing (this w).
Proof.
  intros Hw Hes. revert w Hw.
  induction Hes as [|e es He Hes IH]; intros w Hw; [done|].
  rewrite run_cons. destruct (step_signed_out w e Hw He) as (Hw' & <- & <-).
  by apply IH.
Qed.

Lemma logout_signed_out (w : world) :
  Forall (λ t, pending_login t = false) (tasks w) → signed_out (logout w).
Proof.
  intros Hts. unfold signed_out, logout.
  by destruct (clearTokens_cleared w) as (-> & -> & ->).
Qed.

(** X6: after [logout] (or [clearTokens]) with no [login] or [register]
    pending, and for as long as nothing stores a credential again (no call of
    [login], [register] or [setTokens], and no refresh settling), whatever
    calls are made and answered meanwhile: a call that requires authorization
    is sent with the caller's headers and the content type only, and when it
    is answered 401 it fails at once with the "Session expired" error,
    nothing more being sent; no refresh call has been made since the logout.
    This holds also when a refresh was in flight at the logout, until that
    refresh settles. *)
Theorem after_logout (w : world) (a : args) (es1 es2 : list event)
    (statusText : string) (payload : text) :
  requiresAuth a = true → retryOnUnauthorized a = true →
  Forall (λ t, pending_login t = false) (tasks w) →
  Forall (λ e, quiet e = true) es1 →
  let w0 := run (logout w) es1 in
  let i := length (tasks w0) in
  Forall (λ e, quiet e = true ∧ ∀ x, e ≠ FetchSettles i x) es2 →
  let w1 := spawn a HandBack w0 in
  let w2 := run w1 es2 in
  let w3 := step w2 (FetchSettles i (Response 401 statusText payload)) in
  sent w1 = sent w0 ++ [ApiCall i (url_of a)
                          (mkInit (method (options a)) (body (options a))
                             (headers (options a)
                              ∪ {["Content-Type" := Literal "application/json"]}))]
  ∧ tasks w3 !! i = Some (Finished (Throws session_expired))
  ∧ sent w3 = sent w2
  ∧ refresh_calls w3 = refresh_calls w
  ∧ isRefreshing (this w3) = isRefreshing (this w).
Proof.
  intros Hauth Hretry Hnp Hes1 w0 i Hes2 w1 w2 w3.
  destruct (run_signed_out (logout w) es1 (logout_signed_out w Hnp) Hes1)
    as (Hw0 & Hc0 & Hi0).
  fold w0 in Hw0, Hc0, Hi0.
  destruct (step_signed_out w0 (CallRequest a) Hw0 eq_refl) as (Hw1 & Hc1 & Hi1).
  change (step w0 (CallRequest a)) with w1 in Hw1, Hc1, Hi1.
  destruct (run_signed_out w1 es2 Hw1) as (Hw2 & Hc2 & Hi2).
  { eapply Forall_impl; [exact Hes2|]. by intros e [He _]. }
  fold w2 in Hw2, Hc2, Hi2.
  assert (Ht1 : tasks w1 !! i = Some (Fetching a HandBack)).
  { unfold w1, spawn. simpl. rewrite lookup_app_r by done. by rewrite Nat.sub_diag. }
  destruct (run_untargeted w1 es2 i _ Ht1) as [Ht2 _].
  { eapply Forall_impl; [exact Hes2|]. intros e [_ He].
    destruct e; simpl; try (intros H; exact H). intros <-. by eapply He. }
  fold w2 in Ht2.
  destruct (step_signed_out w2 (FetchSettles i (Response 401 statusText payload))
              Hw2 eq_refl) as (_ & Hc3 & Hi3).
  fold w3 in Hc3, Hi3.
  split.
  { destruct Hw0 as (Ha & _). unfold w1, spawn, request, build_headers. simpl.
    rewrite Ha. simpl. by rewrite andb_false_r. }
  assert (Hw3 : w3 = set_task i (Finished (Throws session_expired)) w2).
  { unfold w3. rewrite (step_fetch _ _ _ _ _ Ht2). unfold responded.
    rewrite Hauth, Hretry. cbn [Z.eqb Pos.eqb andb].
    pose proof (refreshAccessToken_cases w2) as (_ & _ & _ & _ & _ & _ & Hcase).
    destruct Hw2 as (_ & Hr & _). rewrite Hr in Hcase. simpl in Hcase.
    by rewrite Hcase, refreshed_false. }
  split.
  { rewrite Hw3. simpl. apply list_lookup_insert_eq. by eapply task_in_range. }
  split; [by rewrite Hw3|].
  split.
  - rewrite Hc3, Hc2, Hc1, Hc0. done.
  - rewrite Hi3, Hi2, Hi1, Hi0. done.
Qed.

Lemma after_logout_witness :
  let w := run (construct {[KEY := Doc a1_r1]})
             [CallRequest (get "/api/v1/users/me");
              CallRequest (get "/api/v1/trips");
              FetchSettles 0 (Response 401 "Unauthorized" Empty)] in
  let w0 := run (logout w) [FetchSettles 1 (Response 200 "OK" Empty)] in
  let w1 := spawn (get "/api/v1/trips/active") HandBack w0 in
  let w2 := run w1 [CallRequest (get "/api/v1/users/me")] in
  let w3 := step w2 (FetchSettles 2 (Response 401 "Unauthorized" Empty)) in
  isRefreshing (this w) = true
  ∧ tasks w3 !! 2%nat = Some (Finished (Throws session_expired))
  ∧ refresh_calls w3 = refresh_calls w.
Proof.
  intros w w0 w1 w2 w3.
  destruct (after_logout w (get "/api/v1/trips/active")
              [FetchSettles 1 (Response 200 "OK" Empty)]
              [CallRequest (get "/api/v1/users/me")] "Unauthorized" Empty
              eq_refl eq_refl) as (_ & H2 & _ & H4 & _).
  - repeat constructor.
  - repeat constructor.
  - repeat constructor. discriminate.
  - split; [reflexivity|]. split; [exact H2|exact H4].
Defined.

(** ** The refresh marker *)



(** ** The retried call *)

(** X8: when the refresh succeeds, each call that awaited it is sent exactly
    once more, to the same URL with the same method and body, and with the
    headers built from the credentials the refresh has just stored: the
    [Authorization] header is the bearer of the new access credential (or,
    should the new pair carry none, whatever the caller passed). *)
Theorem retry_carries_new_credential (w : world) (i : nat) (a : args) (k : after)
    (p : nat) (status : Z) (statusText : string) (tokens : json) :
  isRefreshing (this w) = true → refreshPromise (this w) = Some p →
  tasks w !! i = Some (Refreshing a k p) → i ∈ waiting w →
  requiresAuth a = true → ok status = true → tokens ≠ JNull →
  let w' := step w (RefreshSettles (Response status statusText (Doc tokens))) in
  ∃ hs,
    sent_for i w' = sent_for i w ++ [ApiCall i (url_of a)
                                       (mkInit (method (options a)) (body (options a)) hs)]
    ∧ accessToken (this w') = field "accessToken" tokens
    ∧ hs !! "Authorization"
      = if truthy (field "accessToken" tokens)
        then Some (Bearer (field "accessToken" tokens))
        else headers (options a) !! "Authorization".
Proof.
  intros Hi Hp Ht Hin Hauth Hok Hnn. cbv zeta.
  destruct (setTokens_returns tokens w Hnn) as [w1 E].
  destruct (setTokens_frame _ _ _ E) as (Hs & Hts & Hw & _).
  destruct (setTokens_stores _ _ _ E) as (Ha & _).
  assert (Htry : refresh_try (Response status statusText (Doc tokens)) w = (w1, true)).
  { simpl. by rewrite Hok, E. }
  assert (Hfield : field "accessToken" tokens = accessToken (this w1)).
  { unfold field. by rewrite Ha. }
  exists (build_headers (no_retry a) (with_waiting [] (refresh_finally w1))).
  change (step w (RefreshSettles (Response status statusText (Doc tokens))))
    with (refresh_settled (Response status statusText (Doc tokens)) w).
  destruct (refresh_settled_this (Response status statusText (Doc tokens)) w p Hi Hp)
    as [Hthis _].
  rewrite Hthis, Htry. simpl fst.
  unfold refresh_settled. rewrite Hi, Hp, Htry.
  split; [|split].
  - rewrite (wakes_target_sent p _ _ i a k).
    + unfold sent_for. simpl. by rewrite Hs.
    + simpl. by rewrite Hts.
    + simpl. by rewrite Hw.
  - by rewrite Hfield.
  - rewrite Hfield. unfold build_headers. simpl. rewrite Hauth. simpl.
    destruct (truthy (accessToken (this w1))).
    + apply lookup_insert_eq.
    + rewrite lookup_union, lookup_singleton_ne by done.
      by destruct (headers (options a) !! "Authorization").
Qed.

Lemma retry_carries_new_credential_witness :
  let w := run (construct {[KEY := Doc a1_r1]})
             [CallRequest (get "/api/v1/users/me");
              FetchSettles 0 (Response 401 "Unauthorized" Empty)] in
  let w' := step w (RefreshSettles (Response 200 "OK" (Doc a2_r2))) in
  ∃ hs, sent_for 0 w' = sent_for 0 w ++ [ApiCall 0 (url_of (get "/api/v1/users/me"))
                                           (mkInit None None hs)]
        ∧ hs !! "Authorization" = Some (Bearer (Some (JStr "a2"))).
Proof.
  intros w w'.
  destruct (retry_carries_new_credential w 0%nat (get "/api/v1/users/me") HandBack 0%nat
              200 "OK" a2_r2) as (hs & H1 & _ & H3);
    [reflexivity|reflexivity|reflexivity|by vm_compute; left|reflexivity|reflexivity
    |discriminate|].
  exists hs. split; [exact H1|exact H3].
Defined.

(** ** The URL of [login] *)

Lemma occurrences_app (c : ascii) (s1 s2 : string) :
  occurrences c (s1 +:+ s2) = (occurrences c s1 + occurrences c s2)%nat.
Proof. induction s1 as [|c1 s1 IH]; simpl; [done|]. rewrite IH. lia. Qed.

Lemma hex_unreserved (c : ascii) (n : nat) :
  unreserved c = false → occurrences c (hex n) = 0%nat.
Proof.
  intros Hc. unfold hex.
  do 16 (destruct n as [|n];
         [simpl; match goal with
                 | |- context [Ascii.eqb c ?d] =>
                     destruct (Ascii.eqb_spec c d) as [->|_]; [discriminate Hc|done]
                 end|]).
  simpl. by destruct n.
Qed.

(** Only unreserved characters and the percent sign come out of
    [encodeURIComponent]. *)
Lemma encodeURIComponent_safe (c : ascii) (s : string) :
  unreserved c = false → c ≠ "%"%char →
  occurrences c (encodeURIComponent s) = 0%nat.
Proof.
  intros Hc Hp. induction s as [|d s IH]; simpl; [done|].
  rewrite occurrences_app, IH. destruct (unreserved d) eqn:Hd; simpl.
  - destruct (Ascii.eqb_spec c d) as [->|_]; [congruence|done].
  - rewrite !occurrences_app, !hex_unreserved by done.
    destruct (Ascii.eqb_spec c "%") as [->|_]; done.
Qed.

(** X9: whatever the email and the password are, the URL that [login] calls
    has one question mark, one ampersand and two equals signs, and no hash
    or blank: what the user types cannot add, end or split a query parameter. *)
Theorem login_url_shape (email password : string) :
  let url := endpoint (login_args email password) in
  occurrences "?" url = 1%nat ∧ occurrences "&" url = 1%nat
  ∧ occurrences "=" url = 2%nat ∧ occurrences "#" url = 0%nat
  ∧ occurrences " " url = 0%nat.
Proof.
  cbv zeta. unfold login_args. cbn [endpoint].
  repeat split; rewrite !occurrences_app, !encodeURIComponent_safe by done; done.
Qed.

(** ** A logout while a refresh is in flight *)

(** X19: [logout] clears the credentials but leaves the refresh in flight
    alone.  When that refresh is then answered 2xx with a JSON body other
    than [null], [setTokens] runs all the same: the client holds the
    credentials of the answer and the record is in the storage again, so the
    session is back after the logout. *)
Theorem logout_keeps_refresh (w : world) (p : nat)
    (status : Z) (statusText : string) (tokens : json) :
  isRefreshing (this w) = true → refreshPromise (this w) = Some p →
  ok status = true → tokens ≠ JNull →
  let w1 := logout w in
  let w2 := step w1 (RefreshSettles (Response status statusText (Doc tokens))) in
  isAuthenticated w1 = false
  ∧ localStorage w1 !! KEY = None
  ∧ accessToken (this w2) = field "accessToken" tokens
  ∧ refreshToken (this w2) = field "refreshToken" tokens
  ∧ localStorage w2 !! KEY = Some (Doc tokens)
  ∧ isRefreshing (this w2) = false.
Proof.
  intros Hi Hp Hok Hnn. cbv zeta. unfold logout.
  split; [done|]. split; [apply lookup_delete_eq|].
  destruct (setTokens_returns tokens (clearTokens w) Hnn) as [w1 E].
  destruct (setTokens_stores _ _ _ E) as (Ha & Hr & Hst).
  assert (Htry : refresh_try (Response status statusText (Doc tokens)) (clearTokens w)
                 = (w1, true)).
  { simpl. by rewrite Hok, E. }
  change (step (clearTokens w) (RefreshSettles (Response status statusText (Doc tokens))))
    with (refresh_settled (Response status statusText (Doc tokens)) (clearTokens w)).
  destruct (refresh_settled_this (Response status statusText (Doc tokens))
              (clearTokens w) p Hi Hp) as [Hthis Hsto].
  rewrite Hthis, Hsto, Htry. simpl.
  unfold field. rewrite Ha, Hr, Hst. repeat split. apply lookup_insert_eq.
Qed.

Lemma logout_keeps_refresh_witness :
  let w := run (construct {[KEY := Doc a1_r1]})
             [CallRequest (get "/api/v1/users/me");
              FetchSettles 0 (Response 401 "Unauthorized" Empty)] in
  let w2 := step (logout w) (RefreshSettles (Response 200 "OK" (Doc a2_r2))) in
  isAuthenticated (logout w) = false
  ∧ accessToken (this w2) = Some (JStr "a2")
  ∧ localStorage w2 !! KEY = Some (Doc a2_r2).
Proof.
  intros w w2.
  destruct (logout_keeps_refresh w 0%nat 200 "OK" a2_r2) as (H1 & _ & H3 & _ & H5 & _);
    [reflexivity|reflexivity|reflexivity|discriminate|].
  split; [exact H1|]. split; [exact H3|exact H5].
Defined.

(** * The authentication context *)

Lemma is_401_other (status : Z) :
  status ≠ 401 →
  match Some (JNum status) with Some (JNum 401) => true | _ => false end = false.
Proof.
  intros Hne. destruct status as [|q|q]; try done.
  do 9 (destruct q as [q|q|]; try done).
Qed.

(** X10: [refreshUser] awaits [getMe].  When [getMe] is answered 401 and no
    refresh follows (no refresh credential is held, or this was already the
    retry) the provider clears the credentials, removes the stored record,
    forgets the user and ends loading.  This holds for an access credential
    held alone, and it holds on the retry for the credentials that the
    refresh has just stored. *)
Theorem refreshUser_unauthorized (s : AuthContext.state) (i : nat) (a : args)
    (statusText : string) (payload : text) :
  tasks (AuthContext.api s) !! i = Some (Fetching a HandBack) →
  retryOnUnauthorized a && truthy (refreshToken (this (AuthContext.api s))) = false →
  let s' := AuthContext.on_event AuthContext.refreshUser_settled i s
              (FetchSettles i (Response 401 statusText payload)) in
  accessToken (this (AuthContext.api s')) = null
  ∧ refreshToken (this (AuthContext.api s')) = null
  ∧ localStorage (AuthContext.api s') !! KEY = None
  ∧ AuthContext.user s' = null
  ∧ AuthContext.isLoading s' = false
  ∧ sent (AuthContext.api s') = sent (AuthContext.api s).
Proof.
  intros Ht Hno. cbv zeta. unfold AuthContext.on_event. cbn [AuthContext.api].
  pose proof (task_in_range _ _ _ Ht) as Hi.
  rewrite (step_fetch _ _ _ _ _ Ht).
  assert (Hres : ∃ e, responded i a HandBack (Response 401 statusText payload)
                        (AuthContext.api s)
                      = set_task i (Finished (Throws e)) (AuthContext.api s)
                      ∧ AuthContext.is_401 e = true).
  { destruct (recovers a (Response 401 statusText payload)) eqn:Hrec.
    - exists session_expired. split; [|done].
      unfold recovers in Hrec. unfold responded. rewrite Hrec.
      assert (Hheld : truthy (refreshToken (this (AuthContext.api s))) = false).
      { destruct (retryOnUnauthorized a); [done|].
        by rewrite andb_false_r in Hrec. }
      unfold refreshAccessToken. rewrite Hheld. cbn [negb]. cbv beta iota.
      apply refreshed_false.
    - exists (error_of 401 statusText payload). split.
      + rewrite responded_unrecovered by done. simpl.
        rewrite catch_all_error_of by done. done.
      + unfold AuthContext.is_401. by rewrite status_of_error_of. }
  destruct Hres as (e & -> & He). simpl.
  rewrite list_lookup_insert_eq by done. simpl. rewrite He. simpl.
  repeat split. apply lookup_delete_eq.
Qed.

Lemma refreshUser_unauthorized_witness :
  let s := AuthContext.refreshUser (AuthContext.mount {[KEY := Doc only_a1]}) in
  let s' := AuthContext.on_event AuthContext.refreshUser_settled 0 s
              (FetchSettles 0 (Response 401 "Unauthorized" Empty)) in
  accessToken (this (AuthContext.api s)) = Some (JStr "a1")
  ∧ accessToken (this (AuthContext.api s')) = null
  ∧ localStorage (AuthContext.api s') !! KEY = None
  ∧ AuthContext.isLoading s' = false.
Proof.
  intros s s'.
  destruct (refreshUser_unauthorized s 0%nat getMe "Unauthorized" Empty eq_refl eq_refl)
    as (H1 & _ & H3 & _ & H5 & _).
  split; [reflexivity|]. split; [exact H1|]. split; [exact H3|exact H5].
Defined.

(** X11: when the refresh that [getMe] awaits fails, [getMe] fails with the
    401 "Session expired" error and the provider forgets the user and ends
    loading, the credentials and the stored record being gone. *)
Theorem refreshUser_refresh_failed (s : AuthContext.state) (i : nat) (a : args)
    (p : nat) (r : settled) :
  isRefreshing (this (AuthContext.api s)) = true →
  refreshPromise (this (AuthContext.api s)) = Some p →
  tasks (AuthContext.api s) !! i = Some (Refreshing a HandBack p) →
  i ∈ waiting (AuthContext.api s) →
  (refresh_try r (AuthContext.api s)).2 = false →
  let s' := AuthContext.on_event AuthContext.refreshUser_settled i s (RefreshSettles r) in
  tasks (AuthContext.api s') !! i = Some (Finished (Throws session_expired))
  ∧ accessToken (this (AuthContext.api s')) = null
  ∧ refreshToken (this (AuthContext.api s')) = null
  ∧ localStorage (AuthContext.api s') !! KEY = None
  ∧ AuthContext.user s' = null
  ∧ AuthContext.isLoading s' = false.
Proof.
  intros Hi Hp Ht Hin Hb. cbv zeta. unfold AuthContext.on_event. cbn [AuthContext.api].
  destruct (refresh_settled_target _ r i a HandBack p Hi Hp Ht Hin) as (Ht' & _).
  rewrite Hb in Ht'.
  change (step (AuthContext.api s) (RefreshSettles r))
    with (refresh_settled r (AuthContext.api s)).
  rewrite Ht'. simpl.
  destruct (clearTokens_cleared (refresh_settled r (AuthContext.api s))) as (Ha & Hr & Hs).
  done.
Qed.

Lemma refreshUser_refresh_failed_witness :
  let s0 := AuthContext.refreshUser (AuthContext.mount {[KEY := Doc a1_r1]}) in
  let s := AuthContext.on_event AuthContext.refreshUser_settled 0 s0
             (FetchSettles 0 (Response 401 "Unauthorized" Empty)) in
  let s' := AuthContext.on_event AuthContext.refreshUser_settled 0 s
              (RefreshSettles (Response 400 "Bad Request" Empty)) in
  tasks (AuthContext.api s') !! 0%nat = Some (Finished (Throws session_expired))
  ∧ AuthContext.user s' = null ∧ AuthContext.isLoading s' = false.
Proof.
  intros s0 s s'.
  destruct (refreshUser_refresh_failed s 0%nat getMe 0%nat (Response 400 "Bad Request" Empty))
    as (H1 & _ & _ & _ & H5 & H6);
    [reflexivity|reflexivity|reflexivity|by vm_compute; left|reflexivity|].
  split; [exact H1|]. split; [exact H5|exact H6].
Defined.

(** X12: when [getMe] fails otherwise (the [fetch] is rejected, the
    response has a status other than 401 and is not 2xx, or it is 2xx with a
    body that does not parse) the provider only ends loading: the
    credentials, the stored record and the user stay as they were. *)
Theorem refreshUser_other_failure (s : AuthContext.state) (i : nat) (a : args) (r : settled) :
  tasks (AuthContext.api s) !! i = Some (Fetching a HandBack) →
  match r with
  | Rejected => True
  | Response status _ payload => status ≠ 401 ∧ (ok status = false ∨ payload = Garbled)
  end →
  let s' := AuthContext.on_event AuthContext.refreshUser_settled i s (FetchSettles i r) in
  this (AuthContext.api s') = this (AuthContext.api s)
  ∧ localStorage (AuthContext.api s') = localStorage (AuthContext.api s)
  ∧ AuthContext.user s' = AuthContext.user s
  ∧ AuthContext.isLoading s' = false.
Proof.
  intros Ht Hr. cbv zeta. unfold AuthContext.on_event. cbn [AuthContext.api].
  pose proof (task_in_range _ _ _ Ht) as Hi.
  rewrite (step_fetch _ _ _ _ _ Ht).
  assert (Hres : ∃ e, responded i a HandBack r (AuthContext.api s)
                      = set_task i (Finished (Throws e)) (AuthContext.api s)
                      ∧ AuthContext.is_401 e = false).
  { destruct r as [|status statusText payload].
    - exists network_error. done.
    - destruct Hr as [Hne Hor].
      rewrite responded_unrecovered
        by (simpl; destruct (Z.eqb_spec status 401); [done|done]).
      simpl. destruct (ok status) eqn:Hok.
      + destruct Hor as [? | ->]; [done|]. exists network_error. done.
      + exists (catch_all (error_of status statusText payload)). split; [done|].
        destruct (decide (status = 0)) as [->|H0].
        * by rewrite catch_all_falsy by (by rewrite status_of_error_of).
        * rewrite catch_all_error_of by done.
          unfold AuthContext.is_401. rewrite status_of_error_of.
          by apply is_401_other. }
  destruct Hres as (e & -> & He). simpl.
  rewrite list_lookup_insert_eq by done. simpl. by rewrite He.
Qed.

Lemma refreshUser_other_failure_witness :
  let s := AuthContext.refreshUser (AuthContext.mount {[KEY := Doc a1_r1]}) in
  let s' := AuthContext.on_event AuthContext.refreshUser_settled 0 s (FetchSettles 0 Rejected) in
  accessToken (this (AuthContext.api s')) = Some (JStr "a1")
  ∧ AuthContext.user s' = null
  ∧ AuthContext.isLoading s' = false.
Proof.
  intros s s'.
  destruct (refreshUser_other_failure s 0%nat getMe Rejected eq_refl I)
    as (H1 & _ & H3 & H4).
  subst s'. split; [by rewrite H1|]. split; [by rewrite H3|exact H4].
Defined.

(** X13: when [login] (or [register]) of the provider succeeds, the provider
    goes on to [refreshUser] with the credentials just stored: if the answer
    carries an access credential, [getMe] is sent with its bearer; if it
    carries none (an empty body, say), nothing is sent, and the provider ends
    with no user although the login has resolved. *)
Theorem login_then_refreshUser (s : AuthContext.state) (i : nat) (a : args)
    (status : Z) (statusText : string) (tokens : json) :
  tasks (AuthContext.api s) !! i = Some (Fetching a StoreTokens) →
  requiresAuth a = false → ok status = true → tokens ≠ JNull →
  let j := length (tasks (AuthContext.api s)) in
  let s' := AuthContext.on_event AuthContext.login_settled i s
              (FetchSettles i (Response status statusText (Doc tokens))) in
  tasks (AuthContext.api s') !! i = Some (Finished (Returns tokens))
  ∧ if truthy (field "accessToken" tokens) then
      tasks (AuthContext.api s') !! j = Some (Fetching getMe HandBack)
      ∧ (∃ hs, sent (AuthContext.api s')
               = sent (AuthContext.api s) ++ [ApiCall j (url_of getMe) (mkInit None None hs)]
               ∧ hs !! "Authorization" = Some (Bearer (field "accessToken" tokens)))
      ∧ AuthContext.user s' = AuthContext.user s
      ∧ AuthContext.isLoading s' = AuthContext.isLoading s
    else
      sent (AuthContext.api s') = sent (AuthContext.api s)
      ∧ AuthContext.user s' = null
      ∧ AuthContext.isLoading s' = false.
Proof.
  intros Ht Hauth Hok Hnn. cbv zeta.
  unfold AuthContext.on_event. cbn [AuthContext.api].
  pose proof (task_in_range _ _ _ Ht) as Hi.
  rewrite (step_fetch _ _ _ _ _ Ht), responded_unrecovered
    by (simpl; by rewrite Hauth, andb_false_r).
  simpl. rewrite Hok. simpl.
  destruct (setTokens_returns tokens (AuthContext.api s) Hnn) as [w1 E]. rewrite E.
  destruct (setTokens_frame _ _ _ E) as (Hs & Hts & _).
  destruct (setTokens_stores _ _ _ E) as (Ha & _).
  assert (Hfield : field "accessToken" tokens = accessToken (this w1)).
  { unfold field. by rewrite Ha. }
  simpl. rewrite list_lookup_insert_eq by (by rewrite Hts).
  unfold AuthContext.login_settled, AuthContext.refreshUser, isAuthenticated.
  cbn [AuthContext.api AuthContext.user AuthContext.isLoading]. simpl this.
  rewrite Hfield. destruct (truthy (accessToken (this w1))) eqn:Hheld; simpl.
  - rewrite length_insert, Hts.
    rewrite lookup_app_l by (rewrite length_insert; lia).
    rewrite list_lookup_insert_eq by done.
    rewrite lookup_app_r by (by rewrite length_insert).
    rewrite length_insert, Nat.sub_diag. simpl.
    split; [done|]. split; [done|]. split; [|done].
    eexists. rewrite Hs. split; [reflexivity|].
    unfold build_headers. simpl. rewrite Hheld. apply lookup_insert_eq.
  - rewrite list_lookup_insert_eq by (by rewrite Hts). by rewrite Hs.
Qed.

Lemma login_then_refreshUser_witness :
  let s := AuthContext.login "ada@example.org" "secret12" (AuthContext.mount ∅) in
  let s' := AuthContext.on_event AuthContext.login_settled 0 s
              (FetchSettles 0 (Response 200 "OK" (Doc a1_r1))) in
  tasks (AuthContext.api s') !! 1%nat = Some (Fetching getMe HandBack)
  ∧ ∃ hs, sent (AuthContext.api s')
          = sent (AuthContext.api s) ++ [ApiCall 1 (url_of getMe) (mkInit None None hs)]
          ∧ hs !! "Authorization" = Some (Bearer (Some (JStr "a1"))).
Proof.
  intros s s'.
  destruct (login_then_refreshUser s 0%nat (login_args "ada@example.org" "secret12")
              200 "OK" a1_r1) as (_ & H);
    [reflexivity|reflexivity|reflexivity|discriminate|].
  change (truthy (field "accessToken" a1_r1)) with true in H. cbv iota in H.
  destruct H as (H1 & H2 & _). split; [exact H1|exact H2].
Defined.

(** X14: when [login] (or [register]) of the provider fails, [refreshUser]
    is not called: nothing is sent, and the user, the loading flag and the
    credentials stay as they were. *)
Theorem login_failed_no_refreshUser (s : AuthContext.state) (i : nat) (a : args) (r : settled) :
  tasks (AuthContext.api s) !! i = Some (Fetching a StoreTokens) →
  requiresAuth a = false →
  (∀ v, caught (unrecovered r) = Returns v → v = JNull) →
  let s' := AuthContext.on_event AuthContext.login_settled i s (FetchSettles i r) in
  sent (AuthContext.api s') = sent (AuthContext.api s)
  ∧ length (tasks (AuthContext.api s')) = length (tasks (AuthContext.api s))
  ∧ this (AuthContext.api s') = this (AuthContext.api s)
  ∧ AuthContext.user s' = AuthContext.user s
  ∧ AuthContext.isLoading s' = AuthContext.isLoading s.
Proof.
  intros Ht Hauth Hres. cbv zeta.
  unfold AuthContext.on_event. cbn [AuthContext.api].
  pose proof (task_in_range _ _ _ Ht) as Hi.
  rewrite (step_fetch _ _ _ _ _ Ht), responded_unrecovered.
  2:{ destruct r; [done|]. simpl. by rewrite Hauth, andb_false_r. }
  destruct (caught (unrecovered r)) as [v|e] eqn:E; simpl.
  - rewrite (Hres v eq_refl). simpl.
    rewrite list_lookup_insert_eq by done. simpl. by rewrite length_insert.
  - rewrite list_lookup_insert_eq by done. simpl. by rewrite length_insert.
Qed.

Lemma login_failed_no_refreshUser_witness :
  let s := AuthContext.login "ada@example.org" "wrong" (AuthContext.mount ∅) in
  let s' := AuthContext.on_event AuthContext.login_settled 0 s
              (FetchSettles 0 (Response 401 "Unauthorized" Empty)) in
  sent (AuthContext.api s') = sent (AuthContext.api s)
  ∧ AuthContext.isLoading s' = true.
Proof.
  intros s s'.
  destruct (login_failed_no_refreshUser s 0%nat (login_args "ada@example.org" "wrong")
              (Response 401 "Unauthorized" Empty)) as (H1 & _ & _ & _ & H5);
    [reflexivity|reflexivity|intros v; discriminate|].
  split; [exact H1|exact H5].
Defined.

(** X15: at startup ([refreshUser] on the mounted provider) a network call is
    made only when the stored record is JSON with an access credential: then
    [getMe] is the one call, with the bearer of that credential, and loading
    goes on.  In every other case (nothing stored, an empty text, a text that
    is not JSON, [null], a value without access credential) nothing is sent
    and the provider is at once done loading, with no user. *)
Theorem startup (storage : gmap string text) :
  let s := AuthContext.refreshUser (AuthContext.mount storage) in
  let held :=
    match storage !! KEY with
    | Some (Doc v) => field "accessToken" v
    | _ => null
    end in
  if truthy held then
    (∃ hs, sent (AuthContext.api s) = [ApiCall 0 (url_of getMe) (mkInit None None hs)]
           ∧ hs !! "Authorization" = Some (Bearer held))
    ∧ tasks (AuthContext.api s) = [Fetching getMe HandBack]
    ∧ AuthContext.isLoading s = true
  else
    sent (AuthContext.api s) = [] ∧ tasks (AuthContext.api s) = []
    ∧ AuthContext.user s = null ∧ AuthContext.isLoading s = false.
Proof.
  cbv zeta. unfold AuthContext.refreshUser, AuthContext.mount, isAuthenticated.
  cbn [AuthContext.api AuthContext.user AuthContext.isLoading].
  set (held := match storage !! KEY with
               | Some (Doc v) => field "accessToken" v
               | _ => null
               end).
  assert (Ha : truthy (accessToken (this (construct storage))) = truthy held
               ∧ (truthy held = true → accessToken (this (construct storage)) = held)
               ∧ sent (construct storage) = [] ∧ tasks (construct storage) = []).
  { unfold held, construct, loadTokens, fresh, clearTokens, field. simpl.
    destruct (storage !! KEY) as [[| |v]|]; simpl; try done.
    by destruct v. }
  destruct Ha as (Ht & Ha & Hs & Hts). rewrite Ht.
  destruct (truthy held) eqn:Hheld; simpl; [|done].
  unfold spawn, request. simpl. rewrite Hs, Hts. simpl.
  split; [|done]. eexists. split; [reflexivity|].
  unfold build_headers. simpl. rewrite Ht, (Ha eq_refl). apply lookup_insert_eq.
Qed.

(** X20: [logout] of the provider sets the user to [null], sets both
    credentials to [null] and removes the stored record, and it sends nothing.
    If no [login] or [register] is pending at the logout, the record stays
    removed whatever calls are made and answered afterwards, for as long as
    nothing stores a credential again (no call of [login], [register] or
    [setTokens], and no refresh settling): a provider mounted over the
    storage then makes no call at startup and is at once done loading, with
    no user. *)
Theorem logout_then_reload (s : AuthContext.state) (es : list event) :
  Forall (λ t, pending_login t = false) (tasks (AuthContext.api s)) →
  Forall (λ e, quiet e = true) es →
  let s1 := AuthContext.logout s in
  let w := run (AuthContext.api s1) es in
  let s2 := AuthContext.refreshUser (AuthContext.mount (localStorage w)) in
  AuthContext.user s1 = null
  ∧ accessToken (this (AuthContext.api s1)) = null
  ∧ refreshToken (this (AuthContext.api s1)) = null
  ∧ localStorage (AuthContext.api s1) !! KEY = None
  ∧ sent (AuthContext.api s1) = sent (AuthContext.api s)
  ∧ accessToken (this w) = null
  ∧ localStorage w !! KEY = None
  ∧ sent (AuthContext.api s2) = []
  ∧ tasks (AuthContext.api s2) = []
  ∧ AuthContext.user s2 = null
  ∧ AuthContext.isLoading s2 = false.
Proof.
  intros Hnp Hes s1 w s2.
  destruct (logout_signed_out _ Hnp) as (Ha1 & Hr1 & Hk1 & _).
  destruct (run_signed_out _ es (logout_signed_out _ Hnp) Hes) as ((Ha & _ & Hk & _) & _).
  change (run (logout (AuthContext.api s)) es) with w in Ha, Hk.
  assert (Hc : construct (localStorage w) = fresh (localStorage w)).
  { unfold construct, loadTokens. cbn [localStorage fresh]. by rewrite Hk. }
  unfold s2, AuthContext.refreshUser, AuthContext.mount.
  cbn [AuthContext.api AuthContext.user AuthContext.isLoading].
  rewrite Hc. done.
Qed.

Lemma logout_then_reload_witness :
  let s := AuthContext.refreshUser (AuthContext.mount {[KEY := Doc a1_r1]}) in
  let w := run (AuthContext.api (AuthContext.logout s))
             [FetchSettles 0 (Response 401 "Unauthorized" Empty);
              CallRequest (get "/api/v1/trips/active")] in
  let s2 := AuthContext.refreshUser (AuthContext.mount (localStorage w)) in
  isAuthenticated (AuthContext.api s) = true
  ∧ sent (AuthContext.api s2) = []
  ∧ AuthContext.isLoading s2 = false.
Proof.
  intros s w s2.
  destruct (logout_then_reload s
              [FetchSettles 0 (Response 401 "Unauthorized" Empty);
               CallRequest (get "/api/v1/trips/active")])
    as (_ & _ & _ & _ & _ & _ & _ & H8 & _ & _ & H11).
  - repeat constructor.
  - repeat constructor.
  - split; [reflexivity|]. split; [exact H8|exact H11].
Defined.

(** * Dates and form errors *)

Lemma all_digits_app (s t : string) :
  all_digits (s +:+ t) = all_digits s && all_digits t.
Proof.
  induction s as [|c s IH]; simpl; [done|]. rewrite IH. by rewrite andb_assoc.
Qed.

Lemma length_app_string (s t : string) :
  String.length (s +:+ t) = (String.length s + String.length t)%nat.
Proof. induction s as [|c s IH]; simpl; [done|]. by rewrite IH. Qed.

Lemma substring_app_exact (s t : string) :
  String.substring 0 (String.length s) (s +:+ t) = s.
Proof. induction s as [|c s IH]; simpl; [by destruct t|]. by rewrite IH. Qed.

Lemma length_substring_0 (n : nat) (s : string) :
  (n ≤ String.length s)%nat → String.length (String.substring 0 n s) = n.
Proof.
  revert n. induction s as [|c s IH]; intros n; simpl.
  - destruct n; simpl; lia.
  - destruct n as [|n]; simpl; [done|]. intros H. rewrite IH; lia.
Qed.

Lemma normalize_cons (c : ascii) (rest : string) :
  normalize (String c rest)
  = if Ascii.eqb c "." && all_digits rest && (4 <=? String.length rest)%nat
    then String c (String.substring 0 3 rest)
    else String c (normalize rest).
Proof. done. Qed.

(** A text without a dot is left alone. *)
Lemma normalize_digits (s : string) : all_digits s = true → normalize s = s.
Proof.
  induction s as [|c s IH]; [done|]. rewrite normalize_cons. simpl.
  intros [Hc Hs]%andb_true_iff.
  destruct (Ascii.eqb_spec c ".") as [->|_]; [done|]. simpl. by rewrite IH.
Qed.

Lemma normalize_all_digits (s : string) : all_digits (normalize s) = all_digits s.
Proof.
  induction s as [|c s IH]; [done|]. rewrite normalize_cons.
  destruct (Ascii.eqb_spec c ".") as [->|_].
  - by destruct (_ && _).
  - simpl. by rewrite IH.
Qed.

Lemma normalize_length (s : string) :
  (String.length (normalize s) ≤ String.length s)%nat.
Proof.
  induction s as [|c s IH]; [done|]. rewrite normalize_cons.
  destruct (Ascii.eqb c "." && all_digits s && (4 <=? String.length s)%nat) eqn:E;
    simpl; [|lia].
  apply andb_true_iff in E as [_ E%Nat.leb_le].
  rewrite length_substring_0; lia.
Qed.

Lemma all_digits_substring (n m : nat) (s : string) :
  all_digits s = true → all_digits (String.substring n m s) = true.
Proof.
  revert n m. induction s as [|c s IH]; intros n m; simpl.
  - by destruct n, m.
  - intros [Hc Hs]%andb_true_iff. destruct n as [|n]; [destruct m as [|m]|]; simpl.
    + done.
    + by rewrite Hc, IH.
    + by apply IH.
Qed.

Lemma normalize_idempotent (s : string) : normalize (normalize s) = normalize s.
Proof.
  induction s as [|c s IH]; [done|]. rewrite normalize_cons.
  destruct (Ascii.eqb c "." && all_digits s && (4 <=? String.length s)%nat) eqn:E.
  - apply andb_true_iff in E as [[Hc Hd]%andb_true_iff Hl%Nat.leb_le].
    rewrite normalize_cons, Hc.
    rewrite (all_digits_substring 0 3 s Hd).
    rewrite length_substring_0 by lia. simpl.
    by rewrite (normalize_digits _ (all_digits_substring 0 3 s Hd)).
  - rewrite normalize_cons, normalize_all_digits, IH.
    destruct (Ascii.eqb c ".") eqn:Hc; [|done].
    destruct (all_digits s) eqn:Hd; [|done].
    by rewrite (normalize_digits s Hd), E.
Qed.

Lemma normalize_cut (base d rest : string) :
  all_digits d = true → String.length d = 3%nat →
  all_digits rest = true → rest ≠ "" →
  normalize (base +:+ "." +:+ d +:+ rest) = base +:+ "." +:+ d.
Proof.
  intros Hd Hl Hr Hne. induction base as [|c base IH].
  - change ("" +:+ "." +:+ d +:+ rest) with (String "." (d +:+ rest)).
    rewrite normalize_cons.
    rewrite all_digits_app, Hd, Hr, length_app_string, Hl.
    destruct rest as [|r0 rest]; [done|]. simpl.
    rewrite <- Hl. by rewrite substring_app_exact.
  - change (String c base +:+ "." +:+ d +:+ rest)
      with (String c (base +:+ "." +:+ d +:+ rest)).
    rewrite normalize_cons, IH.
    assert (all_digits (base +:+ "." +:+ d +:+ rest) = false) as ->.
    { rewrite all_digits_app. simpl. apply andb_false_r. }
    by rewrite andb_false_r.
Qed.

Lemma normalize_tail (s : string) (z : ascii) :
  is_digit z = false → normalize (s +:+ String z "") = s +:+ String z "".
Proof.
  intros Hz. induction s as [|c s IH].
  - change ("" +:+ String z "") with (String z ""). rewrite normalize_cons.
    simpl. by rewrite andb_false_r.
  - change (String c s +:+ String z "") with (String c (s +:+ String z "")).
    rewrite normalize_cons, IH.
    assert (all_digits (s +:+ String z "") = false) as ->.
    { rewrite all_digits_app. simpl. rewrite Hz. apply andb_false_r. }
    by rewrite andb_false_r.
Qed.

Lemma normalize_empty (s : string) : String.eqb (normalize s) "" = String.eqb s "".
Proof.
  destruct s as [|c s]; [done|]. rewrite normalize_cons.
  by destruct (_ && _).
Qed.

(** X16: [parseApiDate] reads a timestamp whose text ends in a dot and more
    than three digits as the same timestamp cut to three (microseconds become
    milliseconds), whatever comes before the dot; a timestamp that ends in
    anything but a digit, a zone letter for instance, goes to [Date] as it
    is; and a missing or empty value is [null] without [Date] being asked. *)
Theorem parseApiDate_cases (Date_parse : string → option Z)
    (base d rest s : string) (z : ascii) :
  all_digits d = true → String.length d = 3%nat →
  all_digits rest = true → rest ≠ "" → is_digit z = false →
  parseApiDate Date_parse (Some (base +:+ "." +:+ d +:+ rest))
  = Date_parse (base +:+ "." +:+ d)
  ∧ parseApiDate Date_parse (Some (s +:+ String z "")) = Date_parse (s +:+ String z "")
  ∧ parseApiDate Date_parse (Some "") = None
  ∧ parseApiDate Date_parse None = None.
Proof.
  intros Hd Hl Hr Hne Hz. unfold parseApiDate.
  rewrite normalize_cut, normalize_tail by done.
  repeat split.
  - by destruct base.
  - by destruct s.
Qed.

Lemma parseApiDate_cases_witness :
  let Date_parse := λ text : string,
    if String.eqb text "2025-12-31T14:25:11.067" then Some 1767191111067 else None in
  parseApiDate Date_parse (Some "2025-12-31T14:25:11.067278") = Some 1767191111067
  ∧ parseApiDate Date_parse (Some "2025-12-31T14:25:11.067278Z") = None.
Proof.
  intros Date_parse.
  destruct (parseApiDate_cases Date_parse "2025-12-31T14:25:11" "067" "278"
              "2025-12-31T14:25:11.067278" "Z"%char) as (H1 & H2 & _);
    [reflexivity|reflexivity|reflexivity|discriminate|reflexivity|].
  split; [exact H1|exact H2].
Defined.

(** X17: normalising twice is normalising once, so [parseApiDate] gives the
    same date for a timestamp and for its normal form; and the normal form is
    never longer than the timestamp. *)
Theorem parseApiDate_normalized (Date_parse : string → option Z) (v : string) :
  parseApiDate Date_parse (Some (normalize v)) = parseApiDate Date_parse (Some v)
  ∧ normalize (normalize v) = normalize v
  ∧ (String.length (normalize v) ≤ String.length v)%nat.
Proof.
  split; [|split; [apply normalize_idempotent|apply normalize_length]].
  unfold parseApiDate. by rewrite normalize_empty, normalize_idempotent.
Qed.

Lemma fieldErrors_snoc (issues : list ZodIssue) (err : ZodIssue) :
  fieldErrors (issues ++ [err]) = add_issue (fieldErrors issues) err.
Proof. unfold fieldErrors. by rewrite foldl_app. Qed.

(** X18: the error shown under a field of a form is the message of the last
    issue reported for that field, and a field without issue has none; an
    issue with an empty path, or for a field with an empty name, is shown
    nowhere. *)
Theorem fieldErrors_last (issues : list ZodIssue) (k : string) :
  fieldErrors issues !! k
  = if String.eqb k "" then None else message <$> last (issues_of k issues).
Proof.
  revert k. induction issues as [|err issues IH] using rev_ind; intros k.
  - unfold fieldErrors. simpl. rewrite lookup_empty. by destruct (String.eqb k "").
  - rewrite fieldErrors_snoc. unfold issues_of in *. rewrite filter_app.
    unfold add_issue. destruct (path err) as [|field0 rest] eqn:Hp.
    + rewrite IH. rewrite filter_cons_False, filter_nil, app_nil_r by (by rewrite Hp).
      done.
    + destruct (String.eqb_spec field0 "") as [->|Hne0]; simpl.
      * rewrite IH. destruct (String.eqb_spec k "") as [->|Hk]; [done|].
        rewrite filter_cons_False, filter_nil, app_nil_r; [done|].
        rewrite Hp. simpl. congruence.
      * destruct (decide (field0 = k)) as [<-|Hne].
        -- rewrite lookup_insert_eq.
           rewrite filter_cons_True, filter_nil by (by rewrite Hp).
           rewrite last_snoc. simpl.
           by destruct (String.eqb_spec field0 "").
        -- rewrite lookup_insert_ne by done. rewrite IH.
           rewrite filter_cons_False, filter_nil, app_nil_r; [done|].
           rewrite Hp. simpl. congruence.
Qed.
